(** * rss-feeds: incremental ingestion, merge and trim of the three scrapers

    A shallow embedding of the scrapers of the repository
    ([Augsburger Panther/scraper.py], [Komood Store/scraper.py] and
    [Homey App Store - New Apps/scraper.py]) and the properties of their
    discovery, merge, trim, enrichment and exit-code logic.

    Conventions of the embedding.
    - A Python [str] is a [string]; the affixes the code tests for are
      ASCII, so prefix and suffix tests and the slices that remove them
      act on the UTF-8 bytes exactly as they act on the code points.
    - A Python [set] of strings is a [gset string].
    - A list of dicts whose elements are mutated in place is a list used
      as a heap: an object is named by its index and written with
      [<[i:=x]>].
    - The network is an oracle; requests are counted so that the answer to
      a request may depend on everything requested before it.
    - What a library computes from a text and the code only passes on is
      a field of the input next to the text: the groups of the date
      pattern of a news item, and what [datetime.fromisoformat] makes of
      a stored time stamp. *)

From stdpp Require Import base list gmap strings.
From Stdlib Require Import Ascii.
From Stdlib Require String.

(** ** Python string operations *)

Module PyStr.

(** [s.startswith(p)] *)
Definition startswith (s p : string) : bool := String.prefix p s.

(** [s[n:]] for [n >= 0] *)
Fixpoint drop (n : nat) (s : string) : string :=
  match n, s with
  | O, _ => s
  | S _, EmptyString => EmptyString
  | S k, String _ s' => drop k s'
  end.

(** [s[:n]] for [n >= 0] *)
Fixpoint take (n : nat) (s : string) : string :=
  match n, s with
  | O, _ => EmptyString
  | S _, EmptyString => EmptyString
  | S k, String c s' => String c (take k s')
  end.

(** [s.endswith(p)] *)
Definition endswith (s p : string) : bool :=
  (String.length p <=? String.length s)%nat
  && String.eqb (drop (String.length s - String.length p) s) p.

(** [s[:-n]] for [n > 0]: the slice end is clamped at 0 *)
Definition drop_last (n : nat) (s : string) : string :=
  take (String.length s - n) s.

(** truthiness of a string: [if s:] *)
Definition nonempty (s : string) : bool :=
  match s with EmptyString => false | String _ _ => true end.

(** [sub in s] *)
Fixpoint contains (s sub : string) : bool :=
  String.prefix sub s
  || match s with
     | EmptyString => false
     | String _ s' => contains s' sub
     end.

(** [s.split(sep)] for a non-empty [sep]: a left-to-right scan for
    non-overlapping occurrences. [skip] counts the characters of a
    matched separator still to be passed over, [cur] is the current
    part, reversed. *)
Fixpoint split_go (sep s : string) (skip : nat) (cur : list ascii)
  : list string :=
  match s with
  | EmptyString => [String.string_of_list_ascii (rev cur)]
  | String c s' =>
      match skip with
      | S k => split_go sep s' k cur
      | O =>
          if String.prefix sep s
          then String.string_of_list_ascii (rev cur)
               :: split_go sep s' (String.length sep - 1) []
          else split_go sep s' 0 (c :: cur)
      end
  end.

Definition split (s sep : string) : list string := split_go sep s 0 [].

(** [s.rstrip(c)] for a single character [c] *)
Fixpoint rstrip (c : ascii) (s : string) : string :=
  match s with
  | EmptyString => EmptyString
  | String a s' =>
      match rstrip c s' with
      | EmptyString => if Ascii.eqb a c then EmptyString
                       else String a EmptyString
      | r => String a r
      end
  end.

End PyStr.

(** ** Komood Store *)

Module Komood.

Definition sale_prefix : string := "ausverkauft-".
Definition format_suffix : string := "-t-shirt".

(** [clean_product_id] *)
Definition clean_product_id (handle : string) : string :=
  let cleaned := handle in
  let cleaned :=
    if PyStr.startswith cleaned sale_prefix
    then PyStr.drop (String.length sale_prefix) cleaned
    else cleaned in
  let cleaned :=
    if PyStr.endswith cleaned format_suffix
    then PyStr.drop_last (String.length format_suffix) cleaned
    else cleaned in
  cleaned.

Definition BASE_URL : string := "https://www.komood.store".
Definition PAGE_LIMIT : nat := 50.

(** A product of a [products.json] page. [pj_handle] and [pj_title] are
    [product.get("handle", "")] and [product.get("title", "")];
    [pj_description] is the description string the loop body builds from
    the first variant's price and [body_html], and [pj_image] is the
    source of the first image (empty when there is none). *)
Record product_json := ProductJson {
  pj_handle : string;
  pj_title : string;
  pj_description : string;
  pj_image : string
}.

(** The dict [fetch_all_products] appends for a product. *)
Record listed := Listed {
  l_id : string;
  l_title : string;
  l_description : string;
  l_url : string;
  l_image : string
}.

(** What [datetime.fromisoformat] makes of a string: it raises
    [ValueError], or it returns a datetime without or with a time zone.
    Which strings it reads is not modelled. *)
Inductive iso_reading :=
  | Unreadable
  | Naive
  | Aware.

(** A row of [articles.tsv]: a listed product with the time of its
    discovery. [iso] is what [datetime.fromisoformat] makes of
    [timestamp]. *)
Record product := Product {
  id : string;
  title : string;
  description : string;
  url : string;
  image : string;
  timestamp : string;
  iso : iso_reading
}.

(** The title clean-up of the loop body. *)
Definition clean_title (title : string) : string :=
  let title :=
    if PyStr.startswith title "AUSVERKAUFT: "
    then PyStr.drop (String.length "AUSVERKAUFT: ") title
    else title in
  if PyStr.endswith title " - T-Shirt"
  then PyStr.drop_last (String.length " - T-Shirt") title
  else if PyStr.endswith title " - T-shirt"
  then PyStr.drop_last (String.length " - T-shirt") title
  else title.

(** One round of [for product in products]: the dict appended, if any. *)
Definition parse_product (p : product_json) : option listed :=
  let handle := pj_handle p in
  let product_id := clean_product_id handle in
  let title := clean_title (pj_title p) in
  let url := BASE_URL +:+ "/products/" +:+ handle in
  if PyStr.nonempty product_id && PyStr.nonempty title
  then Some (Listed product_id title (pj_description p) url (pj_image p))
  else None.

(** The answer to the request for one page: [fetch_json] raises, or the
    list [data.get("products", [])]. *)
Inductive page_response :=
  | PageRaises
  | PageData (products : list product_json).

(** The [while True] loop of [fetch_all_products], started at [page] with
    [all_products] gathered and the pages in [log] requested. [None]: the
    loop has not ended within [fuel] rounds. *)
Fixpoint fetch_pages (fuel : nat) (pages : nat → page_response) (page : nat)
    (all_products : list listed) (log : list nat)
  : option (list listed * list nat) :=
  match fuel with
  | O => None
  | S fuel' =>
      let log := log ++ [page] in
      match pages page with
      | PageRaises => Some (all_products, log)
      | PageData [] => Some (all_products, log)
      | PageData products =>
          let all_products := all_products ++ omap parse_product products in
          let page := page + 1 in
          if (50 <? page)%nat then Some (all_products, log)
          else fetch_pages fuel' pages page all_products log
      end
  end.

Definition fetch_all_products_fuel (fuel : nat) (pages : nat → page_response)
  : option (list listed * list nat) :=
  fetch_pages fuel pages 1 [] [].

Record world := World {
  pages : nat → page_response;
  now : string
}.

Definition load_existing_products (file : option (list product))
  : list product :=
  match file with
  | Some rows => rows
  | None => []
  end.

Definition existing_ids_of (existing : list product) : gset string :=
  list_to_set (id <$> existing).

(** [product["timestamp"] = now], where [now] is
    [datetime.now(TIMEZONE).isoformat()], which is read back with its
    zone. *)
Definition stamp (now : string) (p : listed) : product :=
  Product (l_id p) (l_title p) (l_description p) (l_url p) (l_image p) now
    Aware.

(** [new_products] of [main] *)
Definition new_products_of (now : string) (existing_ids : gset string)
    (all_products : list listed) : list product :=
  stamp now <$> filter (λ p, l_id p ∉ existing_ids) all_products.

Record feed_entry := FeedEntry {
  fe_id : string;
  fe_title : string;
  fe_link : string;
  fe_pubDate : option string;
  fe_description : string;
  fe_enclosure : option string
}.

(** [parse_timestamp]: the time zone flag of the datetime, [None] for an
    empty or unreadable string. *)
Definition parse_timestamp (p : product) : option bool :=
  if PyStr.nonempty (timestamp p) then
    match iso p with
    | Unreadable => None
    | Naive => Some false
    | Aware => Some true
    end
  else None.

(** [generate_rss_feed]: the entries written to [feed.xml], [None] when
    [fe.pubDate] raises [ValueError], which it does for a datetime without
    a time zone. *)
Fixpoint generate_rss_feed (products : list product)
  : option (list feed_entry) :=
  match products with
  | [] => Some []
  | p :: rest =>
      if PyStr.nonempty (description p) then
        match parse_timestamp p with
        | Some false => None
        | pub_date =>
            cons (FeedEntry (url p) (title p) (url p)
                    (if pub_date is Some _ then Some (timestamp p) else None)
                    (description p)
                    (if PyStr.nonempty (image p) then Some (image p)
                     else None))
            <$> generate_rss_feed rest
        end
      else generate_rss_feed rest
  end.

Inductive status :=
  | Exit (code : nat)
  | Propagated
  | Hangs.

Record run := Run {
  ended : status;
  saved : option (list product);
  feed : option (list feed_entry);
  summary : option (list string);
  requests : list nat
}.

(** [main]: the rows are saved before the feed is generated, so a feed
    that raises leaves the new rows behind and no summary. *)
Definition main (file : option (list product)) (w : world) : run :=
  let existing := load_existing_products file in
  let existing_ids := existing_ids_of existing in
  match fetch_all_products_fuel PAGE_LIMIT (pages w) with
  | None => Run Hangs None None None []
  | Some (all_products, log) =>
      let new_products := new_products_of (now w) existing_ids all_products in
      let merged := new_products ++ existing in
      match generate_rss_feed merged with
      | None => Run Propagated (Some merged) None None log
      | Some entries =>
          Run (if new_products is [] then Exit 1 else Exit 0)
              (Some merged)
              (Some entries)
              (if new_products is [] then None
               else Some (title <$> new_products))
              log
      end
  end.

End Komood.

(** ** Augsburger Panther *)

Module Panther.

Definition BASE_URL : string := "https://www.aev-panther.de".
Definition MAX_ARTICLES : nat := 50.
Definition MAX_RETRIES : nat := 3.

(** One [div.news-item] of the listing, as the selectors and the date
    pattern of [parse_news_items] see it: [link] is [None] when the item
    has no [a] element and otherwise holds [link.get("href", "")]; [spans]
    holds the stripped texts of [div.newsitem_link span]; [date_groups]
    holds the two groups of
    [re.match(r"(\d{2}\.\d{2}\.\d{4})\s*\|\s*(\d{2}:\d{2})", ...)] on the
    text of the first span, [None] when the pattern does not match there
    (the classes of the pattern are those of Unicode; they are not
    modelled). *)
Record news_item := NewsItem {
  link : option string;
  spans : list string;
  date_groups : option (string * string)
}.

(** A row of [articles.tsv], and the dict the scraper keeps for it. *)
Record article := Article {
  date : string;
  time : string;
  title : string;
  url : string;
  description : string;
  image : string
}.

(** [german_date_to_iso] *)
Definition german_date_to_iso (date_str : string) : string :=
  if PyStr.nonempty date_str then
    match PyStr.split date_str "." with
    | [day; month; year] => year +:+ "-" +:+ month +:+ "-" +:+ day
    | _ => date_str
    end
  else EmptyString.

(** *** [parse_news_items]
    The [for] loop over the news items, with its [continue] and its two
    [break]s; [articles] is the list built so far. With fewer than two
    spans the date text is empty, which the pattern does not match. *)
Fixpoint parse_news_items_from (items : list news_item)
    (existing_urls : gset string)
    (articles : list (string * string * string * string))
  : list (string * string * string * string) :=
  match items with
  | [] => articles
  | item :: rest =>
      match link item with
      | None => parse_news_items_from rest existing_urls articles
      | Some href =>
          let url := if PyStr.startswith href "http" then href
                     else BASE_URL +:+ href in
          if decide (url ∈ existing_urls) then articles
          else
            let '(date_match, title) :=
              match spans item with
              | _ :: s1 :: _ => (date_groups item, s1)
              | _ => (None, EmptyString)
              end in
            let '(date_str, time_str) :=
              match date_match with
              | Some (g1, g2) => (german_date_to_iso g1, g2)
              | None => (EmptyString, EmptyString)
              end in
            if PyStr.nonempty title && PyStr.nonempty url then
              let articles := articles ++ [(date_str, time_str, title, url)] in
              if (MAX_ARTICLES <=? length articles)%nat then articles
              else parse_news_items_from rest existing_urls articles
            else parse_news_items_from rest existing_urls articles
      end
  end.

Definition parse_news_items (items : list news_item)
    (existing_urls : gset string)
  : list (string * string * string * string) :=
  parse_news_items_from items existing_urls [].

(** [load_existing_articles]: [None] stands for a missing
    [articles.tsv]. *)
Definition load_existing_articles (file : option (list article))
  : list article :=
  match file with
  | Some rows => rows
  | None => []
  end.

(** *** The network
    [news_page] is the listing as [fetch_html(NEWS_URL)] and the
    selectors deliver it, [None] when the fetch raises.
    [article_page u n] is what [fetch_article_content(u)] does when it is
    the request number [n] of the run. *)
Inductive fetched :=
  | Raises
  | Content (text image_url : string).

Record world := World {
  news_page : option (list news_item);
  article_page : string → nat → fetched
}.

(** A computation that makes detail requests: the state is the list of
    the URLs requested so far. *)
Definition Req (A : Type) : Type := list string → A * list string.

Definition ret {A} (a : A) : Req A := λ log, (a, log).
Definition bind {A B} (m : Req A) (k : A → Req B) : Req B :=
  λ log, let '(a, log') := m log in k a log'.

Notation "x <~ m ;; k" := (bind m (λ x, k))
  (at level 100, m at next level, right associativity).

Definition fetch_article_content (w : world) (url : string) : Req fetched :=
  λ log, (article_page w url (length log), log ++ [url]).

(** [fetch_article_content_with_retry]: [attempts] is the number of
    rounds of the [for] loop still to run. *)
Fixpoint retry_article (w : world) (url : string) (attempts : nat)
  : Req (option (string * string)) :=
  match attempts with
  | O => ret None
  | S k =>
      r <~ fetch_article_content w url ;;
      match r with
      | Content description image =>
          if PyStr.nonempty description then ret (Some (description, image))
          else retry_article w url k
      | Raises => retry_article w url k
      end
  end.

Definition fetch_article_content_with_retry (w : world) (url : string)
  : Req (option (string * string)) :=
  retry_article w url MAX_RETRIES.

(** *** [main] *)

Definition to_dict (t : string * string * string * string) : article :=
  let '(date, time, title, url) := t in
  Article date time title url EmptyString EmptyString.

Definition existing_urls_of (existing : list article) : gset string :=
  list_to_set (url <$> existing).

Definition merge (new_articles : list (string * string * string * string))
    (existing : list article) : list article :=
  (to_dict <$> new_articles) ++ existing.

Definition trim (merged : list article) : list article :=
  take MAX_ARTICLES merged.

Definition pending (a : article) : bool := negb (PyStr.nonempty (description a)).

(** [articles_needing_content]: the dicts of [merged] without a
    description. The list holds the very objects of [merged], so an
    element is the index of its object. *)
Definition articles_needing_content (merged : list article) : list nat :=
  filter (λ i, from_option pending false (merged !! i)) (seq 0 (length merged)).

(** The enrichment loop: [heap] is [merged] with the writes made so far,
    [updated] is [updated_articles]. *)
Fixpoint enrich (w : world) (todo : list nat) (heap : list article)
    (updated : list nat) : Req (list article * list nat) :=
  match todo with
  | [] => ret (heap, updated)
  | i :: rest =>
      match heap !! i with
      | None => enrich w rest heap updated
      | Some a =>
          result <~ fetch_article_content_with_retry w (url a) ;;
          match result with
          | Some (description, image) =>
              enrich w rest
                (<[i := Article (date a) (time a) (title a) (url a)
                          description image]> heap)
                (updated ++ [i])
          | None => enrich w rest heap updated
          end
      end
  end.

(** An entry of the feed. The publication date is left out: [parse_date]
    gives [None] or a datetime to which it has attached [TIMEZONE], so
    [fe.pubDate] does not raise, and no property reads the date. *)
Record feed_entry := FeedEntry {
  fe_id : string;
  fe_title : string;
  fe_link : string;
  fe_description : string;
  fe_enclosure : option string
}.

Definition generate_rss_feed (articles : list article) : list feed_entry :=
  (λ a, FeedEntry (url a) (title a) (url a) (description a)
          (if PyStr.nonempty (image a) then Some (image a) else None))
  <$> filter (λ a, pending a = false) articles.

Inductive status :=
  | Exit (code : nat)
  | Propagated.

(** What a run leaves behind: how the process ends, the rows written to
    [articles.tsv] and the entries written to [feed.xml] ([None]: the
    file is not touched), the lines of the commit summary ([None]: no
    block is printed) and the detail requests made. *)
Record run := Run {
  ended : status;
  saved : option (list article);
  feed : option (list feed_entry);
  summary : option (list string);
  requests : list string
}.

(** A line of the commit summary. *)
Definition summary_line (a : article) : string := date a +:+ " " +:+ title a.

(** [main]. The optional webhook calls for [updated_articles] come after
    the enrichment and touch neither the rows, the feed, the summary nor
    the exit code; they are left out. *)
Definition main (file : option (list article)) (w : world) : run :=
  let existing := load_existing_articles file in
  let existing_urls := existing_urls_of existing in
  match news_page w with
  | None => Run Propagated None None None []
  | Some items =>
      let new_articles := parse_news_items items existing_urls in
      let merged := trim (merge new_articles existing) in
      let '(merged, updated_articles, log) :=
        enrich w (articles_needing_content merged) merged [] [] in
      let updated := omap (λ i, merged !! i) updated_articles in
      Run (if updated_articles is [] then Exit 1 else Exit 0)
          (Some merged)
          (Some (generate_rss_feed merged))
          (if updated_articles is [] then None
           else Some (summary_line <$> updated))
          log
  end.

End Panther.

(** ** Homey App Store - New Apps *)

Module Homey.

Definition MAX_APPS : nat := 50.
Definition MAX_RETRIES : nat := 3.

(** What [datetime.fromisoformat] makes of a string: it raises
    [ValueError], or it returns a datetime without or with a time zone.
    Which strings it reads is not modelled. *)
Inductive iso_reading :=
  | Unreadable
  | Naive
  | Aware.

(** A row of [articles.tsv]. [iso] is what [datetime.fromisoformat] makes
    of [timestamp]. *)
Record app := App {
  id : string;
  name : string;
  description : string;
  url : string;
  image : string;
  developer : string;
  timestamp : string;
  iso : iso_reading
}.

(** [url.split("/app/")[1].rstrip("/")]; the code evaluates it only under
    the guard ["/app/" in url], where the second part exists. *)
Definition app_id_of (url : string) : string :=
  PyStr.rstrip "/" (default EmptyString (PyStr.split url "/app/" !! 1)).

(** [to_locale_agnostic_url] *)
Definition to_locale_agnostic_url (url : string) : string :=
  if PyStr.contains url "/app/" then
    match PyStr.split url "/app/" with
    | [_; p1] => "https://homey.app/a/" +:+ PyStr.rstrip "/" p1
    | _ => url
    end
  else url.

(** The loop of [parse_new_apps] over the links of the section;
    an element of [links] is [link.get("href", "")]. *)
Fixpoint parse_links (links : list string) (existing_ids : gset string)
    (new_app_urls : list string) : list string :=
  match links with
  | [] => new_app_urls
  | href :: rest =>
      if PyStr.nonempty href then
        let href := if PyStr.startswith href "/"
                    then "https://homey.app" +:+ href else href in
        if PyStr.contains href "/app/" then
          let app_id := app_id_of href in
          if decide (app_id ∈ existing_ids)
          then parse_links rest existing_ids new_app_urls
          else
            let new_app_urls :=
              if decide (href ∈ new_app_urls) then new_app_urls
              else new_app_urls ++ [href] in
            if (MAX_APPS <=? length new_app_urls)%nat then new_app_urls
            else parse_links rest existing_ids new_app_urls
        else parse_links rest existing_ids new_app_urls
      else parse_links rest existing_ids new_app_urls
  end.

(** [parse_new_apps]: [section] is [None] when no "New Apps" section is
    found, and otherwise the links [a[href*='/app/']] of the section. *)
Definition parse_new_apps (section : option (list string))
    (existing_ids : gset string) : list string :=
  match section with
  | None => []
  | Some links => parse_links links existing_ids []
  end.

(** What a detail page gives: the fetch raises, or the page is read and
    the four fields are extracted (each empty when not found). *)
Inductive fetched :=
  | Raises
  | Page (name description image developer : string).

Record world := World {
  listing : option (option (list string));
  app_page : string → nat → fetched;
  now : string
}.

Definition Req (A : Type) : Type := list string → A * list string.

Definition ret {A} (a : A) : Req A := λ log, (a, log).
Definition bind {A B} (m : Req A) (k : A → Req B) : Req B :=
  λ log, let '(a, log') := m log in k a log'.

Notation "x <~ m ;; k" := (bind m (λ x, k))
  (at level 100, m at next level, right associativity).

(** The dict [fetch_app_details] returns, before [main] adds the URL and
    the time stamp. *)
Record details := Details {
  d_id : string;
  d_name : string;
  d_description : string;
  d_image : string;
  d_developer : string
}.

(** [fetch_app_details]: [inl tt] when it raises. *)
Definition fetch_app_details (w : world) (url : string)
  : Req (unit + option details) :=
  λ log,
    (match app_page w url (length log) with
     | Raises => inl ()
     | Page name description image developer =>
         let app_id := if PyStr.contains url "/app/" then app_id_of url
                       else EmptyString in
         if PyStr.nonempty name
         then inr (Some (Details app_id name description image developer))
         else inr None
     end, log ++ [url]).

Fixpoint retry_details (w : world) (url : string) (attempts : nat)
  : Req (option details) :=
  match attempts with
  | O => ret None
  | S k =>
      r <~ fetch_app_details w url ;;
      match r with
      | inr (Some d) =>
          if PyStr.nonempty (d_name d) then ret (Some d)
          else retry_details w url k
      | _ => retry_details w url k
      end
  end.

Definition fetch_app_details_with_retry (w : world) (url : string)
  : Req (option details) :=
  retry_details w url MAX_RETRIES.

(** The loop of [main] over [new_app_urls]. The time stamp of a new app
    is [datetime.now(TIMEZONE).isoformat()], which is read back with its
    zone. *)
Fixpoint fetch_new_apps (w : world) (urls : list string) (new_apps : list app)
  : Req (list app) :=
  match urls with
  | [] => ret new_apps
  | url :: rest =>
      r <~ fetch_app_details_with_retry w url ;;
      match r with
      | Some d =>
          fetch_new_apps w rest
            (new_apps ++ [App (d_id d) (d_name d) (d_description d) url
                              (d_image d) (d_developer d) (now w) Aware])
      | None => fetch_new_apps w rest new_apps
      end
  end.

Record feed_entry := FeedEntry {
  fe_id : string;
  fe_title : string;
  fe_link : string;
  fe_pubDate : option string;
  fe_description : option string;
  fe_enclosure : option string;
  fe_author : option string
}.

Definition opt (s : string) : option string :=
  if PyStr.nonempty s then Some s else None.

(** [parse_timestamp]: the time zone flag of the datetime, [None] for an
    empty or unreadable string. *)
Definition parse_timestamp (a : app) : option bool :=
  if PyStr.nonempty (timestamp a) then
    match iso a with
    | Unreadable => None
    | Naive => Some false
    | Aware => Some true
    end
  else None.

(** [generate_rss_feed]: the entries written to [feed.xml], [None] when
    [fe.pubDate] raises [ValueError], which it does for a datetime without
    a time zone. *)
Fixpoint generate_rss_feed (apps : list app) : option (list feed_entry) :=
  match apps with
  | [] => Some []
  | a :: rest =>
      if PyStr.nonempty (name a) then
        match parse_timestamp a with
        | Some false => None
        | pub_date =>
            let u := to_locale_agnostic_url (url a) in
            cons (FeedEntry u (name a) u
                    (if pub_date is Some _ then Some (timestamp a) else None)
                    (opt (description a)) (opt (image a))
                    (opt (developer a)))
            <$> generate_rss_feed rest
        end
      else generate_rss_feed rest
  end.

Definition load_existing_apps (file : option (list app)) : list app :=
  match file with
  | Some rows => rows
  | None => []
  end.

Definition existing_ids_of (existing : list app) : gset string :=
  list_to_set (id <$> existing).

Inductive status :=
  | Exit (code : nat)
  | Propagated.

Record run := Run {
  ended : status;
  saved : option (list app);
  feed : option (list feed_entry);
  summary : option (list string);
  requests : list string
}.

(** [main]: the rows are saved before the feed is generated, so a feed
    that raises leaves the new rows behind and no summary. *)
Definition main (file : option (list app)) (w : world) : run :=
  let existing := load_existing_apps file in
  let existing_ids := existing_ids_of existing in
  match listing w with
  | None => Run Propagated None None None []
  | Some section =>
      let new_app_urls := parse_new_apps section existing_ids in
      let '(new_apps, log) := fetch_new_apps w new_app_urls [] [] in
      let merged := new_apps ++ existing in
      let merged := take MAX_APPS merged in
      match generate_rss_feed merged with
      | None => Run Propagated (Some merged) None None log
      | Some entries =>
          Run (if new_apps is [] then Exit 1 else Exit 0)
              (Some merged)
              (Some entries)
              (if new_apps is [] then None else Some (name <$> new_apps))
              log
      end
  end.

End Homey.

(** * Vocabulary of the properties *)

Section clean_product_id_terms.
Import Komood.

(** The second step of [clean_product_id] on its own. *)
Definition strip_suffix (s : string) : string :=
  if PyStr.endswith s format_suffix
  then PyStr.drop_last (String.length format_suffix) s else s.

End clean_product_id_terms.

Section panther_discovery_terms.
Import Panther.

Abbreviation candidate := (string * string * string * string)%type.

Definition cand_title (t : candidate) : string := t.1.2.
Definition cand_url (t : candidate) : string := t.2.

(** The URL [parse_news_items] derives from an [href]. *)
Definition derived_url (href : string) : string :=
  if PyStr.startswith href "http" then href else BASE_URL +:+ href.

Definition entry_url (item : news_item) : option string :=
  derived_url <$> link item.

Definition emitted_ok (known : gset string) (t : candidate) : Prop :=
  (cand_url t ∉ known)
  ∧ PyStr.nonempty (cand_title t) = true
  ∧ PyStr.nonempty (cand_url t) = true.

End panther_discovery_terms.

Section panther_enrichment_terms.
Import Panther.

(** An attempt that does not count as a success. *)
Definition fails (r : fetched) : Prop :=
  match r with
  | Raises => True
  | Content text _ => PyStr.nonempty text = false
  end.

(** What enrichment never writes. *)
Definition key (a : article) : string * string * string * string :=
  (date a, time a, title a, url a).

End panther_enrichment_terms.

Section komood_terms.
Import Komood.

(** A page that makes the loop go on. *)
Definition has_products (r : page_response) : Prop :=
  match r with
  | PageData (_ :: _) => True
  | _ => False
  end.

Definition listed_ok (l : listed) : Prop :=
  PyStr.nonempty (l_id l) = true
  ∧ PyStr.nonempty (l_title l) = true
  ∧ PyStr.nonempty (l_url l) = true.

End komood_terms.

Section homey_terms.
Import Homey.

Definition link_ok (known : gset string) (u : string) : Prop :=
  PyStr.nonempty u = true
  ∧ PyStr.contains u "/app/" = true
  ∧ (app_id_of u ∉ known).

(** An attempt that does not count as a success. *)
Definition app_fails (r : fetched) : Prop :=
  match r with
  | Raises => True
  | Page name _ _ _ => PyStr.nonempty name = false
  end.

Definition details_ok (u : string) (d : details) : Prop :=
  PyStr.nonempty (d_name d) = true
  ∧ d_id d = (if PyStr.contains u "/app/" then app_id_of u else EmptyString).

Definition app_ok (w : world) (a : app) : Prop :=
  PyStr.nonempty (name a) = true
  ∧ id a = (if PyStr.contains (url a) "/app/" then app_id_of (url a)
            else EmptyString)
  ∧ timestamp a = now w
  ∧ ∃ n, ¬ app_fails (app_page w (url a) n).

End homey_terms.

Section runs_terms.

(** The candidates of a Panther run, as dicts. *)
Definition panther_new (file : option (list Panther.article))
    (items : list Panther.news_item) : list Panther.article :=
  Panther.to_dict
  <$> Panther.parse_news_items items
        (Panther.existing_urls_of (Panther.load_existing_articles file)).

(** [merged] of a Panther run before and after the trim. *)
Definition panther_merged (file : option (list Panther.article))
    (items : list Panther.news_item) : list Panther.article :=
  Panther.merge
    (Panther.parse_news_items items
       (Panther.existing_urls_of (Panther.load_existing_articles file)))
    (Panther.load_existing_articles file).

Definition panther_trimmed (file : option (list Panther.article))
    (items : list Panther.news_item) : list Panther.article :=
  Panther.trim (panther_merged file items).

(** The enrichment of a Panther run: heap, [updated_articles], requests. *)
Definition panther_enriched (file : option (list Panther.article))
    (items : list Panther.news_item) (net : string → nat → Panther.fetched)
  : list Panther.article * list nat * list string :=
  Panther.enrich (Panther.World (Some items) net)
    (Panther.articles_needing_content (panther_trimmed file items))
    (panther_trimmed file items) [] [].

(** The apps a Homey run fetched details for. *)
Definition homey_new_apps (file : option (list Homey.app))
    (section : option (list string)) (net : string → nat → Homey.fetched)
    (now : string) : list Homey.app :=
  (Homey.fetch_new_apps (Homey.World (Some section) net now)
     (Homey.parse_new_apps section
        (Homey.existing_ids_of (Homey.load_existing_apps file)))
     [] []).1.

End runs_terms.

Section dedup_terms.

(** The products a Komood run lists. *)
Definition komood_listed (pages : nat → Komood.page_response)
  : list Komood.listed :=
  from_option fst [] (Komood.fetch_all_products_fuel Komood.PAGE_LIMIT pages).

Definition komood_new (file : option (list Komood.product))
    (w : Komood.world) : list Komood.product :=
  Komood.new_products_of (Komood.now w)
    (Komood.existing_ids_of (Komood.load_existing_products file))
    (komood_listed (Komood.pages w)).

Definition listed_once : Panther.news_item :=
  Panther.NewsItem (Some "/panther/news/y.html")
    ["05.11.2024 | 14:30 Uhr"; "Y"] (Some ("05.11.2024", "14:30")).

End dedup_terms.

Section stop_at_known_terms.

Definition scenario_item (path title : string) : Panther.news_item :=
  Panther.NewsItem (Some path) ["05.11.2024 | 14:30 Uhr"; title]
    (Some ("05.11.2024", "14:30")).

End stop_at_known_terms.

Section merge_trim_terms.

(** [merged] holds [new] first and [old] after it, each in its order. *)
Definition new_then_old {A} (new old merged : list A) : Prop :=
  merged = new ++ old
  ∧ (∀ i x, new !! i = Some x → merged !! i = Some x)
  ∧ (∀ j, merged !! (length new + j) = old !! j).

End merge_trim_terms.

Section listing_failure_terms.

Definition sold_out_shirt : Komood.product_json :=
  Komood.ProductJson "ausverkauft-panther-t-shirt"
    "AUSVERKAUFT: Panther - T-Shirt" "€25,00" EmptyString.

(** Page 1 lists one product, every later page raises. *)
Definition second_page_raises : Komood.world :=
  Komood.World
    (λ page, match page with
             | 1 => Komood.PageData [sold_out_shirt]
             | _ => Komood.PageRaises
             end)
    "2024-11-05T14:30:00+01:00".

End listing_failure_terms.

Section failed_enrichment_terms.

Definition pending_row : Panther.article :=
  Panther.Article "2024-11-05" "14:30" "Y"
    "https://www.aev-panther.de/panther/news/y.html" EmptyString EmptyString.

End failed_enrichment_terms.

Section date_terms.




End date_terms.

Section dated_terms.


End dated_terms.

Section skip_terms.

(** The title [parse_news_items] reads from a news item. *)
Definition entry_title (item : Panther.news_item) : string :=
  match Panther.spans item with
  | _ :: s1 :: _ => s1
  | _ => EmptyString
  end.

End skip_terms.

Section catalog_terms.

(** The products of a page response; a page that raises gives none. *)
Definition products_of (r : Komood.page_response) : list Komood.product_json :=
  match r with
  | Komood.PageData products => products
  | Komood.PageRaises => []
  end.

End catalog_terms.

Section homey_link_terms.

(** The absolute URL [parse_new_apps] makes of an [href]. *)
Definition absolute (href : string) : string :=
  if PyStr.startswith href "/" then "https://homey.app" +:+ href else href.

End homey_link_terms.

Section sample_terms.

(** A Panther store of one row, and a listing that shows two articles
    above the stored one. *)
Definition stored_article : Panther.article :=
  Panther.Article "2024-11-01" "10:00" "X"
    "https://www.aev-panther.de/panther/news/x.html" "Teaser" EmptyString.

Definition listing_above_stored : list Panther.news_item :=
  [scenario_item "/panther/news/y.html" "Y";
   scenario_item "/panther/news/z.html" "Z";
   scenario_item "/panther/news/x.html" "X"].

(** A Komood store of one row, and a catalog of one page that lists the
    stored product between two others. *)
Definition stored_product : Komood.product :=
  Komood.Product "wolf" "Wolf" "€20,00"
    "https://www.komood.store/products/wolf-t-shirt" EmptyString
    "2024-11-01T10:00:00+01:00" Komood.Aware.

Definition catalog_with_stored : Komood.world :=
  Komood.World
    (λ page, match page with
             | 1 => Komood.PageData
                      [sold_out_shirt;
                       Komood.ProductJson "wolf-t-shirt" "Wolf - T-Shirt"
                         "€20,00" EmptyString;
                       Komood.ProductJson "fuchs-t-shirt" "Fuchs - T-Shirt"
                         "€22,00" EmptyString]
             | _ => Komood.PageData []
             end)
    "2024-11-05T14:30:00+01:00".

(** A Homey store of one row, and a section that links the stored app
    between two others. *)
Definition stored_app : Homey.app :=
  Homey.App "com.old" "Old" "An app" "https://homey.app/en-us/app/com.old/"
    EmptyString "Dev" "2024-11-01T10:00:00+01:00" Homey.Aware.

Definition section_with_stored : option (list string) :=
  Some ["/en-us/app/com.new/"; "/en-us/app/com.old/";
        "/en-us/app/com.other/"].

Definition every_page_reads : string → nat → Homey.fetched :=
  λ _ _, Homey.Page "Example" "An app" EmptyString "Dev".

(** A network whose first three detail requests raise and whose later
    ones deliver a page. *)
Definition three_articles_raise : string → nat → Panther.fetched :=
  λ _ n, if (n <? 3)%nat then Panther.Raises
         else Panther.Content "Teaser" EmptyString.

Definition three_apps_raise : string → nat → Homey.fetched :=
  λ _ n, if (n <? 3)%nat then Homey.Raises
         else Homey.Page "Example" "An app" EmptyString "Dev".

End sample_terms.

Section feed_terms.

(** A row on which [fe.pubDate] raises: it is rendered, and its time stamp
    reads as a datetime without a time zone. *)
Definition komood_raises (p : Komood.product) : Prop :=
  PyStr.nonempty (Komood.description p) = true
  ∧ Komood.parse_timestamp p = Some false.

Definition homey_raises (a : Homey.app) : Prop :=
  PyStr.nonempty (Homey.name a) = true
  ∧ Homey.parse_timestamp a = Some false.

(** The entry of a row. *)
Definition komood_entry (p : Komood.product) : Komood.feed_entry :=
  Komood.FeedEntry (Komood.url p) (Komood.title p) (Komood.url p)
    (if Komood.parse_timestamp p is Some _ then Some (Komood.timestamp p)
     else None)
    (Komood.description p)
    (if PyStr.nonempty (Komood.image p) then Some (Komood.image p) else None).

Definition homey_entry (a : Homey.app) : Homey.feed_entry :=
  Homey.FeedEntry (Homey.to_locale_agnostic_url (Homey.url a)) (Homey.name a)
    (Homey.to_locale_agnostic_url (Homey.url a))
    (if Homey.parse_timestamp a is Some _ then Some (Homey.timestamp a)
     else None)
    (Homey.opt (Homey.description a)) (Homey.opt (Homey.image a))
    (Homey.opt (Homey.developer a)).

End feed_terms.

(** * Properties *)

(** ** Strings *)

Section string_facts.
Implicit Types s p q : string.

Lemma str_append_nil s : EmptyString +:+ s = s.
Proof. reflexivity. Qed.

Lemma str_append_cons c s p : String c s +:+ p = String c (s +:+ p).
Proof. reflexivity. Qed.

Lemma str_length_app s p :
  String.length (s +:+ p) = String.length s + String.length p.
Proof.
  induction s as [|c s IH]; [done |].
  rewrite str_append_cons. simpl. by rewrite IH.
Qed.

Lemma prefix_app p s : String.prefix p (p +:+ s) = true.
Proof.
  induction p as [|c p IH]; [by destruct s |].
  rewrite str_append_cons. simpl.
  destruct (ascii_dec c c); [done | congruence].
Qed.

Lemma prefix_split p s :
  String.prefix p s = true → s = p +:+ PyStr.drop (String.length p) s.
Proof.
  revert s. induction p as [|c p IH]; intros s H; [done |].
  destruct s as [|a s]; simpl in H; [done |].
  destruct (ascii_dec c a) as [->|]; [| done].
  rewrite str_append_cons. simpl. f_equal. by apply IH.
Qed.

(** How a prefix of [h +:+ s] can arise: it is a prefix of [h], or [h]
    is a proper initial part of it and the remainder starts [s]. *)
Lemma prefix_app_inv p h s :
  String.prefix p (h +:+ s) = true →
  String.prefix p h = true
  ∨ (h = PyStr.take (String.length h) p
     ∧ String.length h < String.length p
     ∧ String.prefix (PyStr.drop (String.length h) p) s = true).
Proof.
  revert h. induction p as [|c p IH]; intros h H.
  - left. by destruct h.
  - destruct h as [|a h].
    + right. repeat split; [simpl; lia | done].
    + rewrite str_append_cons in H. simpl in H.
      destruct (ascii_dec c a) as [->|]; [| done].
      destruct (IH _ H) as [Hp | (Heq & Hlen & Hrest)].
      * left. simpl. by destruct (ascii_dec a a).
      * right. simpl. repeat split; [by f_equal | lia | done].
Qed.

Lemma str_drop_app p s : PyStr.drop (String.length p) (p +:+ s) = s.
Proof.
  induction p as [|c p IH]; [by destruct s |].
  by rewrite str_append_cons.
Qed.

Lemma str_take_app p s : PyStr.take (String.length p) (p +:+ s) = p.
Proof.
  induction p as [|c p IH]; [by destruct s |].
  rewrite str_append_cons. simpl. by rewrite IH.
Qed.

Lemma str_take_drop n s : PyStr.take n s +:+ PyStr.drop n s = s.
Proof.
  revert s. induction n as [|n IH]; intros [|c s]; try done.
  simpl. by rewrite str_append_cons, IH.
Qed.

Lemma str_length_take n s :
  n ≤ String.length s → String.length (PyStr.take n s) = n.
Proof.
  revert s. induction n as [|n IH]; intros [|c s]; simpl; try done; try lia.
  intros. rewrite IH; lia.
Qed.

Lemma str_eqb_refl s : String.eqb s s = true.
Proof. by apply String.eqb_eq. Qed.

Lemma str_eqb_length s p :
  String.length s ≠ String.length p → String.eqb s p = false.
Proof. intros H. apply String.eqb_neq. by intros ->. Qed.

Lemma endswith_app s p : PyStr.endswith (s +:+ p) p = true.
Proof.
  unfold PyStr.endswith. rewrite str_length_app.
  replace (String.length s + String.length p - String.length p)
    with (String.length s) by lia.
  rewrite str_drop_app, str_eqb_refl.
  apply andb_true_intro; split; [apply Nat.leb_le; lia | done].
Qed.

Lemma drop_last_app s p : PyStr.drop_last (String.length p) (s +:+ p) = s.
Proof.
  unfold PyStr.drop_last. rewrite str_length_app.
  replace (String.length s + String.length p - String.length p)
    with (String.length s) by lia.
  apply str_take_app.
Qed.

Lemma endswith_split s p :
  PyStr.endswith s p = true →
  s = PyStr.drop_last (String.length p) s +:+ p.
Proof.
  unfold PyStr.endswith, PyStr.drop_last.
  intros [_ H%String.eqb_eq]%andb_prop.
  by rewrite <- H at 2; rewrite str_take_drop.
Qed.

Lemma str_append_assoc s p q : (s +:+ p) +:+ q = s +:+ (p +:+ q).
Proof.
  induction s as [|c s IH]; [done |]. by rewrite !str_append_cons, IH.
Qed.

(** A suffix of [s] is a suffix of every [q +:+ s]. *)
Lemma endswith_extend q s p :
  PyStr.endswith s p = true → PyStr.endswith (q +:+ s) p = true.
Proof.
  intros H. rewrite (endswith_split s p H), <- str_append_assoc.
  apply endswith_app.
Qed.

Lemma endswith_length s p :
  PyStr.endswith s p = true → String.length p ≤ String.length s.
Proof.
  unfold PyStr.endswith. intros [H _]%andb_prop. by apply Nat.leb_le.
Qed.

Lemma str_length_drop_last n s :
  String.length (PyStr.drop_last n s) = String.length s - n.
Proof. unfold PyStr.drop_last. apply str_length_take. lia. Qed.

End string_facts.

(** ** Identifier normalization *)

Section clean_product_id_facts.
Import Komood.

Lemma clean_product_id_unfold h :
  clean_product_id h =
  strip_suffix (if PyStr.startswith h sale_prefix
                then PyStr.drop (String.length sale_prefix) h else h).
Proof. reflexivity. Qed.

Lemma length_strip_suffix s :
  String.length (strip_suffix s) =
  if PyStr.endswith s format_suffix
  then String.length s - String.length format_suffix
  else String.length s.
Proof.
  unfold strip_suffix. destruct (PyStr.endswith _ _); [| done].
  apply str_length_drop_last.
Qed.

Lemma strip_suffix_fixed s :
  String.eqb (strip_suffix s) s = negb (PyStr.endswith s format_suffix).
Proof.
  unfold strip_suffix. destruct (PyStr.endswith _ _) eqn:E; simpl.
  - apply str_eqb_length. rewrite str_length_drop_last.
    apply endswith_length in E. simpl in *. lia.
  - apply str_eqb_refl.
Qed.

Lemma strip_suffix_app s : strip_suffix (s +:+ format_suffix) = s.
Proof.
  unfold strip_suffix. by rewrite endswith_app, drop_last_app.
Qed.

(** Prepending the sale prefix never cancels against the suffix step. *)
Lemma strip_suffix_prefixed s :
  String.eqb (strip_suffix (sale_prefix +:+ s)) (strip_suffix s) = false.
Proof.
  apply str_eqb_length. rewrite !length_strip_suffix.
  destruct (PyStr.endswith s format_suffix) eqn:E.
  - rewrite (endswith_extend sale_prefix _ _ E), str_length_app.
    apply endswith_length in E. simpl in *. lia.
  - destruct (PyStr.endswith (sale_prefix +:+ s) format_suffix) eqn:E';
      rewrite str_length_app; simpl; lia.
Qed.

(** The only handle that gains the sale prefix when the format suffix is
    appended. *)
Lemma startswith_app_suffix h :
  PyStr.startswith h sale_prefix = false →
  PyStr.startswith (h +:+ format_suffix) sale_prefix = true →
  h = "ausverkauft".
Proof.
  unfold PyStr.startswith. intros Hh Happ.
  destruct (prefix_app_inv _ _ _ Happ) as [H | (Heq & Hlen & Hrest)];
    [congruence |].
  remember (String.length h) as n eqn:Hn. clear Hn Hh Happ.
  do 12 (destruct n as [|n];
         [vm_compute in Hrest; try discriminate; by rewrite Heq |]).
  simpl in Hlen. lia.
Qed.

Lemma clean_prefixed h :
  clean_product_id (sale_prefix +:+ h) = strip_suffix h.
Proof.
  rewrite clean_product_id_unfold. unfold PyStr.startswith.
  by rewrite prefix_app, str_drop_app.
Qed.

Lemma clean_of_prefixed h :
  PyStr.startswith h sale_prefix = true →
  ∃ h', h = sale_prefix +:+ h' ∧ clean_product_id h = strip_suffix h'
        ∧ PyStr.drop (String.length sale_prefix) h = h'.
Proof.
  intros H. exists (PyStr.drop (String.length sale_prefix) h).
  split; [by apply prefix_split |]. split; [| done].
  rewrite clean_product_id_unfold. by rewrite H.
Qed.

Lemma clean_unprefixed h :
  PyStr.startswith h sale_prefix = false →
  clean_product_id h = strip_suffix h.
Proof. intros H. rewrite clean_product_id_unfold. by rewrite H. Qed.

(** C9, as amended. Prepending the sale prefix to a handle [h] leaves
    [clean_product_id] unchanged exactly when [h] does not itself begin
    with the prefix; appending the format suffix leaves it unchanged
    exactly when [h], after the removal of a leading sale prefix, does not
    end with the suffix and [h] is not "ausverkauft". So a handle [h] that
    carries neither decoration and is not "ausverkauft" has the same
    identifier, [h], under each of the four decorations. *)
Theorem C9_clean_product_id_decoration (h : string) :
  String.eqb (clean_product_id (sale_prefix +:+ h)) (clean_product_id h)
    = negb (PyStr.startswith h sale_prefix)
  ∧ String.eqb (clean_product_id (h +:+ format_suffix)) (clean_product_id h)
    = negb (PyStr.endswith
              (if PyStr.startswith h sale_prefix
               then PyStr.drop (String.length sale_prefix) h else h)
              format_suffix)
      && negb (String.eqb h "ausverkauft")
  ∧ (PyStr.startswith h sale_prefix = false →
     PyStr.endswith h format_suffix = false →
     h ≠ "ausverkauft" →
     clean_product_id h = h
     ∧ clean_product_id (sale_prefix +:+ h) = h
     ∧ clean_product_id (h +:+ format_suffix) = h
     ∧ clean_product_id (sale_prefix +:+ h +:+ format_suffix) = h).
Proof.
  assert (Hfresh : PyStr.startswith h sale_prefix = false →
                   h ≠ "ausverkauft" →
                   clean_product_id (h +:+ format_suffix) = h).
  { intros Hp Hne. rewrite clean_unprefixed, strip_suffix_app; [done |].
    destruct (PyStr.startswith (h +:+ _) _) eqn:E; [| done].
    destruct Hne. by apply startswith_app_suffix. }
  split; [| split].
  - rewrite clean_prefixed.
    destruct (PyStr.startswith h sale_prefix) eqn:Hp; simpl.
    + destruct (clean_of_prefixed h Hp) as (h' & -> & -> & _).
      apply strip_suffix_prefixed.
    + rewrite clean_unprefixed by done. apply str_eqb_refl.
  - destruct (PyStr.startswith h sale_prefix) eqn:Hp.
    + destruct (clean_of_prefixed h Hp) as (h' & Hh & -> & ->).
      assert (String.eqb h "ausverkauft" = false) as ->.
      { apply String.eqb_neq. intros ->. by vm_compute in Hp. }
      rewrite Hh at 1. rewrite str_append_assoc, clean_prefixed, strip_suffix_app.
      rewrite String.eqb_sym, strip_suffix_fixed.
      by destruct (PyStr.endswith h' format_suffix).
    + destruct (String.eqb h "ausverkauft") eqn:Hne.
      * apply String.eqb_eq in Hne as ->. by vm_compute.
      * apply String.eqb_neq in Hne. rewrite Hfresh by done.
        rewrite clean_unprefixed by done.
        rewrite String.eqb_sym, strip_suffix_fixed.
        by destruct (PyStr.endswith h format_suffix).
  - intros Hp Hs Hne.
    assert (strip_suffix h = h) as Hfix.
    { unfold strip_suffix. by rewrite Hs. }
    rewrite !clean_prefixed, strip_suffix_app, clean_unprefixed by done.
    by rewrite Hfresh.
Qed.

Lemma C9_clean_product_id_decoration_witness :
  Komood.clean_product_id "panther" = "panther"
  ∧ Komood.clean_product_id "ausverkauft-panther" = "panther"
  ∧ Komood.clean_product_id "panther-t-shirt" = "panther"
  ∧ Komood.clean_product_id "ausverkauft-panther-t-shirt" = "panther".
Proof.
  apply (C9_clean_product_id_decoration "panther");
    [reflexivity | reflexivity | discriminate].
Defined.

(** C9, as stated, fails: the handle "x-t-shirt" with the format suffix
    appended once more is cleaned to "x-t-shirt", not to "x". *)
Lemma C9_counterexample :
  ¬ (∀ h : string,
       clean_product_id (sale_prefix +:+ h) = clean_product_id h
       ∧ clean_product_id (h +:+ format_suffix) = clean_product_id h).
Proof. intros H. by destruct (H "x-t-shirt") as [_ ?]. Qed.

End clean_product_id_facts.

(** ** Augsburger Panther: discovery *)

Section panther_discovery.
Import Panther.
Local Arguments Nat.leb : simpl never.

(** Everything the loop does to the list it builds. *)
Lemma parse_news_items_from_spec items known acc :
  ∃ new,
    parse_news_items_from items known acc = acc ++ new
    ∧ Forall (emitted_ok known) new
    ∧ (cand_url <$> new) `sublist_of` omap entry_url items
    ∧ (length acc < MAX_ARTICLES → length (acc ++ new) ≤ MAX_ARTICLES).
Proof.
  revert acc. induction items as [|item rest IH]; intros acc.
  { exists []. rewrite app_nil_r. split_and!; [done.. | lia]. }
  simpl. unfold entry_url at 1. destruct (link item) as [href|]; simpl.
  2:{ destruct (IH acc) as (new & ? & ? & ? & ?). by exists new. }
  fold (derived_url href).
  destruct (decide (derived_url href ∈ known)) as [Hk|Hk].
  { exists []. rewrite app_nil_r.
    split_and!; [done | done | apply sublist_nil_l | lia]. }
  destruct (match spans item with
            | _ :: s1 :: _ => (date_groups item, s1)
            | _ => (None, EmptyString)
            end) as [date_match title].
  destruct (match date_match with
            | Some (g1, g2) => (german_date_to_iso g1, g2)
            | None => (EmptyString, EmptyString)
            end) as [date_str time_str].
  destruct (PyStr.nonempty title && PyStr.nonempty (derived_url href))
    eqn:Hok.
  2:{ destruct (IH acc) as (new & ? & ? & ? & ?). exists new.
      split_and!; [done | done | by apply sublist_cons | done]. }
  apply andb_prop in Hok as [Ht Hu].
  set (t := (date_str, time_str, title, derived_url href)).
  assert (emitted_ok known t) as Ht' by done.
  destruct (MAX_ARTICLES <=? length (acc ++ [t])) eqn:Hmax.
  - exists [t]. split_and!.
    + done.
    + by apply Forall_singleton.
    + simpl. apply sublist_skip, sublist_nil_l.
    + rewrite length_app. simpl. lia.
  - destruct (IH (acc ++ [t])) as (new & Heq & Hall & Hsub & Hlen).
    exists (t :: new). rewrite Heq, <- app_assoc. split_and!.
    + done.
    + by apply Forall_cons.
    + simpl. by apply sublist_skip.
    + intros _. rewrite <- app_assoc in Hlen. apply Hlen.
      apply Nat.leb_gt in Hmax. lia.
Qed.

Lemma parse_news_items_spec items known :
  Forall (emitted_ok known) (parse_news_items items known)
  ∧ (cand_url <$> parse_news_items items known)
      `sublist_of` omap entry_url items
  ∧ length (parse_news_items items known) ≤ MAX_ARTICLES.
Proof.
  unfold parse_news_items.
  destruct (parse_news_items_from_spec items known [])
    as (new & -> & ? & ? & Hlen).
  split_and!; [done | done |]. apply Hlen. unfold MAX_ARTICLES. simpl. lia.
Qed.


End panther_discovery.

(** ** Augsburger Panther: enrichment *)

Section panther_enrichment.
Import Panther.
Implicit Types (w : world) (heap : list article) (log : list string).

Lemma retry_article_step w u k log :
  retry_article w u (S k) log =
  match article_page w u (length log) with
  | Content description image =>
      if PyStr.nonempty description
      then (Some (description, image), log ++ [u])
      else retry_article w u k (log ++ [u])
  | Raises => retry_article w u k (log ++ [u])
  end.
Proof.
  simpl. unfold bind, fetch_article_content, ret.
  by destruct (article_page _ _ _) as [|d i]; [| destruct (PyStr.nonempty d)].
Qed.

(** A retry only adds requests for its own URL. *)
Lemma retry_article_log w u k log :
  ∃ n, n ≤ k ∧ (retry_article w u k log).2 = log ++ replicate n u.
Proof.
  revert log. induction k as [|k IH]; intros log.
  { exists 0. by rewrite app_nil_r. }
  rewrite retry_article_step.
  destruct (IH (log ++ [u])) as (n & Hn & Hlog).
  assert (∃ m, m ≤ S k ∧
            (retry_article w u k (log ++ [u])).2 = log ++ replicate m u)
    as Hk.
  { exists (S n). split; [lia |]. by rewrite Hlog, <- app_assoc. }
  destruct (article_page _ _ _) as [|d i]; [done |].
  destruct (PyStr.nonempty d); [| done].
  exists 1. split; [lia | done].
Qed.

(** With at least one attempt allowed the URL is requested. *)
Lemma retry_article_requests w u k log :
  u ∈ (retry_article w u (S k) log).2.
Proof.
  rewrite retry_article_step.
  assert (u ∈ (retry_article w u k (log ++ [u])).2) as Hk.
  { destruct (retry_article_log w u k (log ++ [u])) as (n & _ & ->).
    set_solver. }
  destruct (article_page _ _ _) as [|d i]; [done |].
  destruct (PyStr.nonempty d); [set_solver | done].
Qed.

(** A success carries a description. *)
Lemma retry_article_some w u k log d i :
  (retry_article w u k log).1 = Some (d, i) → PyStr.nonempty d = true.
Proof.
  revert log. induction k as [|k IH]; intros log; [done |].
  rewrite retry_article_step.
  destruct (article_page _ _ _) as [|d' i']; [apply IH |].
  destruct (PyStr.nonempty d') eqn:E; [| apply IH].
  by intros [= <- <-].
Qed.

(** The outcome of a retry, attempt by attempt. *)
Lemma panther_retry_result (w : Panther.world) u k log :
  match Panther.retry_article w u k log with
  | (Some (d, i), log') =>
      ∃ j, j < k
           ∧ log' = log ++ replicate (S j) u
           ∧ Panther.article_page w u (length log + j) = Panther.Content d i
           ∧ PyStr.nonempty d = true
           ∧ ∀ j', j' < j → fails (Panther.article_page w u (length log + j'))
  | (None, log') =>
      log' = log ++ replicate k u
      ∧ ∀ j, j < k → fails (Panther.article_page w u (length log + j))
  end.
Proof.
  revert log. induction k as [|k IH]; intros log.
  { simpl. split; [by rewrite app_nil_r | lia]. }
  rewrite retry_article_step.
  assert (fails (Panther.article_page w u (length log)) →
          match Panther.retry_article w u k (log ++ [u]) with
          | (Some (d, i), log') =>
              ∃ j, j < S k
                   ∧ log' = log ++ replicate (S j) u
                   ∧ Panther.article_page w u (length log + j)
                     = Panther.Content d i
                   ∧ PyStr.nonempty d = true
                   ∧ ∀ j', j' < j →
                           fails (Panther.article_page w u (length log + j'))
          | (None, log') =>
              log' = log ++ replicate (S k) u
              ∧ ∀ j, j < S k →
                     fails (Panther.article_page w u (length log + j))
          end) as Hnext.
  { intros Hf. specialize (IH (log ++ [u])).
    rewrite length_app in IH. simpl in IH.
    destruct (Panther.retry_article w u k (log ++ [u])) as [[[d i]|] log'].
    - destruct IH as (j & Hj & -> & Hpage & Hd & Hbefore).
      exists (S j). split_and!; [lia | by rewrite <- app_assoc | | done |].
      + by replace (length log + S j) with (length log + 1 + j) by lia.
      + intros [|j'] Hj'; [by rewrite Nat.add_0_r |].
        replace (length log + S j') with (length log + 1 + j') by lia.
        apply Hbefore. lia.
    - destruct IH as [-> Hall]. split; [by rewrite <- app_assoc |].
      intros [|j] Hj; [by rewrite Nat.add_0_r |].
      replace (length log + S j) with (length log + 1 + j) by lia.
      apply Hall. lia. }
  destruct (Panther.article_page w u (length log)) as [|d i] eqn:Hp;
    [by apply Hnext |].
  destruct (PyStr.nonempty d) eqn:Hd; [| by apply Hnext].
  exists 0. rewrite Nat.add_0_r. split_and!; [lia | done | done | done |].
  intros j' Hj'. lia.
Qed.

Lemma enrich_step w i rest heap updated log :
  enrich w (i :: rest) heap updated log =
  match heap !! i with
  | None => enrich w rest heap updated log
  | Some a =>
      match fetch_article_content_with_retry w (url a) log with
      | (Some (description, image), log') =>
          enrich w rest
            (<[i := Article (date a) (time a) (title a) (url a)
                      description image]> heap)
            (updated ++ [i]) log'
      | (None, log') => enrich w rest heap updated log'
      end
  end.
Proof.
  simpl. destruct (heap !! i) as [a|]; [| done]. unfold bind.
  by destruct (fetch_article_content_with_retry _ _ _) as [[[d im]|] log'].
Qed.

(** The loop invariant of the enrichment: [ok] lists the objects written,
    in the order of the loop. *)
Lemma enrich_spec w todo heap updated log :
  NoDup todo →
  (∀ i, i ∈ todo → ∃ a, heap !! i = Some a ∧ pending a = true) →
  ∃ ok,
    (enrich w todo heap updated log).1.2 = updated ++ ok
    ∧ ok `sublist_of` todo
    ∧ key <$> (enrich w todo heap updated log).1.1 = key <$> heap
    ∧ (∀ i, i ∈ ok →
         ∃ a a', heap !! i = Some a
                 ∧ (enrich w todo heap updated log).1.1 !! i = Some a'
                 ∧ pending a' = false)
    ∧ (∀ i, i ∉ ok →
         (enrich w todo heap updated log).1.1 !! i = heap !! i).
Proof.
  revert heap updated log.
  induction todo as [|i rest IH]; intros heap updated log Hnd Hpend.
  { exists []. rewrite app_nil_r. split_and!; [done.. | set_solver | done]. }
  apply NoDup_cons in Hnd as [Hi Hnd].
  rewrite enrich_step.
  destruct (Hpend i) as (a & Ha & Hpa); [set_solver |]. rewrite Ha.
  destruct (fetch_article_content_with_retry w (url a) log)
    as [[[d im]|] log'] eqn:Hr.
  - set (a' := Article (date a) (time a) (title a) (url a) d im).
    assert (pending a' = false) as Hpa'.
    { unfold pending. simpl.
      by rewrite (retry_article_some w (url a) MAX_RETRIES log d im);
        [| unfold fetch_article_content_with_retry in Hr; rewrite Hr]. }
    destruct (IH (<[i:=a']> heap) (updated ++ [i]) log' Hnd)
      as (ok & Hupd & Hsub & Hkey & Hok & Hnot).
    { intros j Hj. destruct (Hpend j) as (b & Hb & Hpb); [set_solver |].
      exists b. rewrite list_lookup_insert_ne; [done |]. by intros ->. }
    assert (i ∉ ok) as Hiok.
    { intros Hin. apply Hi. by eapply elem_of_sublist. }
    exists (i :: ok). split_and!.
    + by rewrite Hupd, <- app_assoc.
    + by apply sublist_skip.
    + rewrite Hkey, list_fmap_insert. apply list_insert_id.
      by rewrite list_lookup_fmap, Ha.
    + intros j [->|Hj]%elem_of_cons.
      * exists a, a'. split_and!; [done | | done].
        rewrite Hnot by done. apply list_lookup_insert_eq.
        by eapply lookup_lt_Some.
      * destruct (Hok j Hj) as (b & b' & Hb & Hb' & Hpb).
        exists b, b'. split_and!; [| done | done].
        rewrite list_lookup_insert_ne in Hb; [done |].
        intros ->. done.
    + intros j Hj. apply not_elem_of_cons in Hj as [Hji Hj].
      rewrite Hnot by done. by apply list_lookup_insert_ne.
  - destruct (IH heap updated log' Hnd)
      as (ok & Hupd & Hsub & Hkey & Hok & Hnot).
    { intros j Hj. apply Hpend. set_solver. }
    exists ok. split_and!; [done | by apply sublist_cons | done..].
Qed.

(** Requests are only ever added. *)
Lemma enrich_log_mono w todo heap updated log u :
  u ∈ log → u ∈ (enrich w todo heap updated log).2.
Proof.
  revert heap updated log.
  induction todo as [|i rest IH]; intros heap updated log Hu; [done |].
  rewrite enrich_step. destruct (heap !! i) as [a|]; [| by apply IH].
  unfold fetch_article_content_with_retry.
  destruct (retry_article_log w (url a) MAX_RETRIES log) as (n & _ & Hlog).
  destruct (retry_article w (url a) MAX_RETRIES log) as [[[d im]|] log'];
    simpl in Hlog; subst log'; apply IH; set_solver.
Qed.

(** Every object of the work list has its URL requested. *)
Lemma enrich_requests w todo heap updated log i u :
  i ∈ todo → (url <$> heap) !! i = Some u →
  u ∈ (enrich w todo heap updated log).2.
Proof.
  revert heap updated log.
  induction todo as [|j rest IH]; intros heap updated log Hi Hu;
    [set_solver |].
  rewrite enrich_step.
  destruct (heap !! j) as [a|] eqn:Ha.
  2:{ apply elem_of_cons in Hi as [->|Hi]; [| by apply IH].
      by rewrite list_lookup_fmap, Ha in Hu. }
  unfold fetch_article_content_with_retry.
  pose proof (retry_article_requests w (url a) 2 log) as Hreq.
  change (S 2) with MAX_RETRIES in Hreq.
  destruct (decide (i = j)) as [->|Hne].
  - assert (url a = u) as <-.
    { rewrite list_lookup_fmap, Ha in Hu. by injection Hu. }
    destruct (retry_article w (url a) MAX_RETRIES log) as [[[d im]|] log'];
      by apply enrich_log_mono.
  - apply elem_of_cons in Hi as [?|Hi']; [done |].
    destruct (retry_article w (url a) MAX_RETRIES log) as [[[d im]|] log'];
      apply IH; try done.
    rewrite list_fmap_insert. simpl.
    by rewrite list_lookup_insert_ne.
Qed.

(** The loop only appends to the list of requests. *)
Lemma enrich_log_app w todo heap updated log :
  ∃ extra, (enrich w todo heap updated log).2 = log ++ extra.
Proof.
  revert heap updated log.
  induction todo as [|i rest IH]; intros heap updated log.
  { exists []. by rewrite app_nil_r. }
  rewrite enrich_step. destruct (heap !! i) as [a|]; [| apply IH].
  unfold fetch_article_content_with_retry.
  destruct (retry_article_log w (url a) MAX_RETRIES log) as (n & _ & Hlog).
  destruct (retry_article w (url a) MAX_RETRIES log) as [[[d im]|] log'];
    simpl in Hlog; subst log'.
  - destruct (IH (<[i:=Article (date a) (time a) (title a) (url a) d im]>
                    heap) (updated ++ [i]) (log ++ replicate n (url a)))
      as (extra & ->).
    exists (replicate n (url a) ++ extra). by rewrite app_assoc.
  - destruct (IH heap updated (log ++ replicate n (url a))) as (extra & ->).
    exists (replicate n (url a) ++ extra). by rewrite app_assoc.
Qed.

(** An object is left as it is when every request the loop makes for its
    URL fails. *)
Lemma enrich_unchanged w todo heap updated log i a :
  heap !! i = Some a →
  (∀ n, length log ≤ n →
        (enrich w todo heap updated log).2 !! n = Some (url a) →
        fails (article_page w (url a) n)) →
  (enrich w todo heap updated log).1.1 !! i = Some a.
Proof.
  revert heap updated log.
  induction todo as [|j rest IH]; intros heap updated log Ha Hf; [done |].
  rewrite enrich_step in Hf |- *.
  destruct (heap !! j) as [b|] eqn:Hb; [| by apply IH].
  unfold fetch_article_content_with_retry in *.
  pose proof (panther_retry_result w (url b) MAX_RETRIES log) as Hr.
  destruct (retry_article w (url b) MAX_RETRIES log) as [[[d im]|] log'].
  - destruct Hr as (k & _ & -> & Hpage & Hd & _).
    destruct (decide (j = i)) as [->|Hne].
    + exfalso. rewrite Ha in Hb. injection Hb as <-.
      destruct (enrich_log_app w rest
                  (<[i:=Article (date a) (time a) (title a) (url a) d im]>
                     heap) (updated ++ [i])
                  (log ++ replicate (S k) (url a))) as (extra & Hlog).
      specialize (Hf (length log + k)). rewrite Hlog, Hpage in Hf.
      assert (PyStr.nonempty d = false) as Hd'; [| congruence].
      apply Hf; [lia |].
      rewrite <- app_assoc, lookup_app_r by lia.
      replace (length log + k - length log) with k by lia.
      rewrite lookup_app_l by (rewrite length_replicate; lia).
      apply lookup_replicate_2. lia.
    + apply IH; [by rewrite list_lookup_insert_ne |].
      intros n Hn. apply Hf. rewrite length_app, length_replicate in Hn. lia.
  - destruct Hr as [-> _]. apply IH; [done |].
    intros n Hn. apply Hf. rewrite length_app in Hn. lia.
Qed.

Lemma NoDup_articles_needing_content merged :
  NoDup (articles_needing_content merged).
Proof. apply NoDup_filter, NoDup_seq. Qed.

Lemma elem_of_articles_needing_content merged i :
  i ∈ articles_needing_content merged ↔
  ∃ a, merged !! i = Some a ∧ pending a = true.
Proof.
  unfold articles_needing_content.
  rewrite list_elem_of_filter, elem_of_seq. split.
  - intros [Hp _]. destruct (merged !! i) as [a|]; [| done].
    exists a. split; [done |]. simpl in Hp. by destruct (pending a).
  - intros (a & Ha & Hp). rewrite Ha. simpl. rewrite Hp. split; [done |].
    apply lookup_lt_Some in Ha. lia.
Qed.

End panther_enrichment.

(** ** Komood Store: pagination and discovery *)

Section komood_facts.
Import Komood.
Local Arguments Nat.ltb : simpl never.

Lemma fetch_pages_step fuel pages page all_products log :
  fetch_pages (S fuel) pages page all_products log =
  match pages page with
  | PageRaises => Some (all_products, log ++ [page])
  | PageData [] => Some (all_products, log ++ [page])
  | PageData products =>
      if (50 <? page + 1)%nat
      then Some (all_products ++ omap parse_product products, log ++ [page])
      else fetch_pages fuel pages (page + 1)
             (all_products ++ omap parse_product products) (log ++ [page])
  end.
Proof. reflexivity. Qed.

(** From page [page] on, [51 - page] rounds are enough, and more fuel
    changes nothing: the pages requested are [page], [page + 1], ..., each
    but the last with products, and the last one is a page that raises, an
    empty page, or page 50. *)
Lemma fetch_pages_total k pages page all_products log :
  page + k = 51 → 1 ≤ k →
  ∃ all n,
    1 ≤ n ≤ k
    ∧ (∀ j, j < n - 1 → has_products (pages (page + j)))
    ∧ (pages (page + (n - 1)) = PageRaises
       ∨ pages (page + (n - 1)) = PageData []
       ∨ page + n = 51)
    ∧ ∀ extra, fetch_pages (k + extra) pages page all_products log
               = Some (all, log ++ seq page n).
Proof.
  revert page all_products log.
  induction k as [|k IH]; intros page all_products log Hpk Hk; [lia |].
  destruct (pages page) as [|[|p products]] eqn:Hp.
  - exists all_products, 1. split_and!; [lia | lia | intros; lia | |].
    { left. by rewrite Nat.add_0_r. }
    intros extra. change (S k + extra) with (S (k + extra)).
    by rewrite fetch_pages_step, Hp.
  - exists all_products, 1. split_and!; [lia | lia | intros; lia | |].
    { right; left. by rewrite Nat.add_0_r. }
    intros extra. change (S k + extra) with (S (k + extra)).
    by rewrite fetch_pages_step, Hp.
  - destruct (50 <? page + 1)%nat eqn:Hlim.
    + exists (all_products ++ omap parse_product (p :: products)), 1.
      split_and!; [lia | lia | intros; lia | |].
      { right; right. apply Nat.ltb_lt in Hlim. lia. }
      intros extra. change (S k + extra) with (S (k + extra)).
      by rewrite fetch_pages_step, Hp, Hlim.
    + apply Nat.ltb_ge in Hlim as Hlim'.
      destruct (IH (page + 1)
                  (all_products ++ omap parse_product (p :: products))
                  (log ++ [page]))
        as (all & n & Hn & Hbefore & Hlast & Heq); [lia.. |].
      exists all, (S n). split_and!; [lia | lia | | |].
      { intros [|j] Hj.
        - by rewrite Nat.add_0_r, Hp.
        - replace (page + S j) with (page + 1 + j) by lia.
          apply Hbefore. lia. }
      { replace (page + (S n - 1)) with (page + 1 + (n - 1)) by lia.
        replace (page + S n) with (page + 1 + n) by lia. done. }
      intros extra. change (S k + extra) with (S (k + extra)).
      rewrite fetch_pages_step, Hp, Hlim, Heq, <- app_assoc. simpl.
      by rewrite Nat.add_1_r.
Qed.

Lemma parse_product_ok p l : parse_product p = Some l → listed_ok l.
Proof.
  unfold parse_product.
  destruct (_ && _) eqn:E; [| done]. intros [= <-].
  apply andb_prop in E as [? ?]. by split_and!.
Qed.

(** A product without a clean identifier or without a clean title yields
    no dict. *)
Lemma parse_product_skip p :
  PyStr.nonempty (clean_product_id (pj_handle p)) = false
  ∨ PyStr.nonempty (clean_title (pj_title p)) = false →
  parse_product p = None.
Proof.
  unfold parse_product. intros [-> | ->]; [done |].
  by rewrite andb_false_r.
Qed.

Lemma fetch_pages_ok fuel pages page all_products log all log' :
  Forall listed_ok all_products →
  fetch_pages fuel pages page all_products log = Some (all, log') →
  Forall listed_ok all.
Proof.
  revert page all_products log.
  induction fuel as [|fuel IH]; intros page all_products log Hall; [done |].
  rewrite fetch_pages_step.
  assert (∀ ps, Forall listed_ok (all_products ++ omap parse_product ps))
    as Hnext.
  { intros ps. apply Forall_app. split; [done |].
    apply Forall_forall. intros l (p & _ & Hp)%list_elem_of_omap.
    by eapply parse_product_ok. }
  destruct (pages page) as [|[|p products]]; try by intros [= <- _].
  destruct (50 <? page + 1)%nat;
    [intros [= <- _]; apply (Hnext (p :: products)) |].
  apply IH, Hnext.
Qed.

Lemma new_products_of_spec now known all :
  Forall (λ p, (id p ∉ known) ∧ timestamp p = now)
    (new_products_of now known all)
  ∧ (id <$> new_products_of now known all) `sublist_of` (l_id <$> all)
  ∧ (title <$> new_products_of now known all) `sublist_of` (l_title <$> all).
Proof.
  unfold new_products_of. split_and!.
  - apply Forall_fmap, Forall_forall.
    by intros l [? _]%list_elem_of_filter.
  - rewrite <- list_fmap_compose. apply (fmap_sublist l_id), sublist_filter.
  - rewrite <- list_fmap_compose.
    apply (fmap_sublist l_title), sublist_filter.
Qed.

(** What the loop returns: the products of the pages it requested. *)
Lemma fetch_pages_products fuel pages page all_products log all log' :
  fetch_pages fuel pages page all_products log = Some (all, log') →
  ∃ n, log' = log ++ seq page n
       ∧ all = all_products
               ++ omap parse_product
                    (mjoin ((products_of ∘ pages) <$> seq page n)).
Proof.
  revert page all_products log.
  induction fuel as [|fuel IH]; intros page all_products log; [done |].
  rewrite fetch_pages_step.
  destruct (pages page) as [|[|p products]] eqn:Hp.
  - intros [= <- <-]. exists 1. simpl. by rewrite Hp, app_nil_r.
  - intros [= <- <-]. exists 1. simpl. by rewrite Hp, app_nil_r.
  - destruct (50 <? page + 1)%nat.
    + intros [= <- <-]. exists 1. simpl. by rewrite Hp, app_nil_r.
    + intros (n & -> & ->)%IH. exists (S n).
      rewrite <- !app_assoc. split; [by rewrite Nat.add_1_r |].
      f_equal. simpl. rewrite Hp, omap_app. by rewrite Nat.add_1_r.
Qed.

(** The loop when page [k] raises and every page before it has
    products: the pages 1, ..., [k] are requested and the products are
    those of the pages before [k]. *)
Lemma fetch_pages_raises pages k :
  1 ≤ k ≤ 50 →
  (∀ j, 1 ≤ j < k → has_products (pages j)) →
  pages k = PageRaises →
  fetch_all_products_fuel PAGE_LIMIT pages
  = Some (omap parse_product
            (mjoin ((products_of ∘ pages) <$> seq 1 (k - 1))),
          seq 1 k).
Proof.
  intros Hk Hbefore Hraise.
  destruct (fetch_pages_total 50 pages 1 [] [])
    as (all & n & Hn & Hb & Hlast & Heq); [lia.. |].
  assert (n = k) as ->.
  { destruct (Nat.lt_trichotomy n k) as [Hlt|[->|Hgt]]; [| done |].
    - assert (has_products (pages n)) as Hp by (apply Hbefore; lia).
      replace (1 + (n - 1)) with n in Hlast by lia.
      destruct Hlast as [Hl|[Hl|Hl]]; [by rewrite Hl in Hp.. | lia].
    - specialize (Hb (k - 1)). replace (1 + (k - 1)) with k in Hb by lia.
      rewrite Hraise in Hb. destruct Hb. lia. }
  specialize (Heq 0). rewrite Nat.add_0_r in Heq.
  unfold fetch_all_products_fuel, PAGE_LIMIT. rewrite Heq. simpl. f_equal.
  destruct (fetch_pages_products _ _ _ _ _ _ _ Heq) as (m & Hm & ->).
  simpl in Hm. apply (f_equal length) in Hm. rewrite !length_seq in Hm.
  subst m. simpl. f_equal. f_equal.
  replace k with (k - 1 + 1) at 1 by lia.
  rewrite seq_app, fmap_app, join_app. simpl.
  replace (S (k - 1)) with k by lia. rewrite Hraise. simpl.
  by rewrite !app_nil_r.
Qed.

(** [generate_rss_feed] raises exactly when a rendered row has a time
    stamp without a zone; otherwise it gives the entries of the rows with
    a description, in their order. *)
Lemma komood_feed_spec (l : list product) :
  match generate_rss_feed l with
  | Some f =>
      f = komood_entry <$> filter (λ p, PyStr.nonempty (description p) = true) l
      ∧ Forall (λ p, ¬ komood_raises p) l
  | None => Exists komood_raises l
  end.
Proof.
  induction l as [|p l IH]; [done |].
  rewrite filter_cons. cbn [generate_rss_feed].
  destruct (PyStr.nonempty (description p)) eqn:Hd.
  2:{ rewrite decide_False by done.
      destruct (generate_rss_feed l) as [f|].
      - destruct IH as [-> Hall]. split; [done |].
        apply Forall_cons. split; [| done]. intros [? _]. congruence.
      - by apply Exists_cons_tl. }
  rewrite decide_True by done.
  assert (parse_timestamp p ≠ Some false →
          match cons (komood_entry p) <$> generate_rss_feed l with
          | Some f =>
              f = komood_entry
                  <$> p :: filter (λ p, PyStr.nonempty (description p) = true) l
              ∧ Forall (λ p, ¬ komood_raises p) (p :: l)
          | None => Exists komood_raises (p :: l)
          end) as Hnext.
  { intros Ht. destruct (generate_rss_feed l) as [f|]; simpl.
    - destruct IH as [-> Hall]. split; [done |].
      apply Forall_cons. split; [| done]. by intros [_ ?].
    - by apply Exists_cons_tl. }
  unfold komood_entry at 1 in Hnext.
  destruct (parse_timestamp p) as [[|]|] eqn:Ht.
  - by apply Hnext.
  - by apply Exists_cons_hd.
  - by apply Hnext.
Qed.

(** The rows a run stamps are rendered without an error. *)
Lemma komood_new_aware now known all :
  Forall (λ p, iso p = Aware) (new_products_of now known all).
Proof. unfold new_products_of. by apply Forall_fmap, Forall_forall. Qed.

Lemma komood_feed_None (l : list product) :
  generate_rss_feed l = None ↔ Exists komood_raises l.
Proof.
  pose proof (komood_feed_spec l) as H.
  destruct (generate_rss_feed l) as [f|]; [| done].
  destruct H as [_ Hall]. split; [done |].
  intros Hex. apply Exists_exists in Hex as (p & Hp & Hr).
  rewrite Forall_forall in Hall. by destruct (Hall p Hp).
Qed.

(** Only a stored row can make the feed raise. *)
Lemma komood_feed_raises (new existing : list product) :
  Forall (λ p, iso p = Aware) new →
  generate_rss_feed (new ++ existing) = None ↔ Exists komood_raises existing.
Proof.
  intros Hnew. rewrite komood_feed_None, Exists_app. split; [| by right].
  intros [Hex|Hex]; [| done].
  apply Exists_exists in Hex as (p & Hp & _ & Ht).
  rewrite Forall_forall in Hnew. specialize (Hnew p Hp).
  unfold parse_timestamp in Ht. rewrite Hnew in Ht.
  by destruct (PyStr.nonempty (timestamp p)).
Qed.

Lemma komood_main_total file w :
  ∃ all n,
    1 ≤ n ≤ 50
    ∧ (∀ extra, fetch_all_products_fuel (PAGE_LIMIT + extra) (pages w)
                = Some (all, seq 1 n))
    ∧ Forall listed_ok all
    ∧ let existing := load_existing_products file in
      let new_products :=
        new_products_of (now w) (existing_ids_of existing) all in
      main file w =
      match generate_rss_feed (new_products ++ existing) with
      | None =>
          Run Propagated (Some (new_products ++ existing)) None None (seq 1 n)
      | Some entries =>
          Run (if new_products is [] then Exit 1 else Exit 0)
              (Some (new_products ++ existing))
              (Some entries)
              (if new_products is [] then None
               else Some (title <$> new_products))
              (seq 1 n)
      end.
Proof.
  destruct (fetch_pages_total 50 (pages w) 1 [] [])
    as (all & n & Hn & _ & _ & Heq); [lia.. |].
  exists all, n. split_and!; [lia | lia | done | |].
  - eapply fetch_pages_ok; [| apply (Heq 0)]. done.
  - simpl. unfold main. specialize (Heq 0).
    unfold fetch_all_products_fuel, PAGE_LIMIT.
    change (50 + 0) with 50 in Heq. by rewrite Heq.
Qed.

End komood_facts.

(** ** Homey App Store: discovery and enrichment *)

Section homey_facts.
Import Homey.
Local Arguments Nat.leb : simpl never.
Implicit Types (w : world) (log : list string).

Lemma nonempty_app s p :
  PyStr.nonempty p = true → PyStr.nonempty (s +:+ p) = true.
Proof. by destruct s, p. Qed.

Lemma parse_links_spec links known acc :
  ∃ new,
    parse_links links known acc = acc ++ new
    ∧ Forall (link_ok known) new
    ∧ (length acc < MAX_APPS → length (acc ++ new) ≤ MAX_APPS)
    ∧ (NoDup acc → NoDup (acc ++ new)).
Proof.
  revert acc. induction links as [|href rest IH]; intros acc.
  { exists []. rewrite app_nil_r. split_and!; [done.. | lia | done]. }
  simpl. destruct (PyStr.nonempty href) eqn:Hne; [| apply IH].
  set (u := if PyStr.startswith href "/" then _ else href).
  assert (PyStr.nonempty u = true) as Hu.
  { unfold u. destruct (PyStr.startswith href "/"); [| done].
    by apply nonempty_app. }
  destruct (PyStr.contains u "/app/") eqn:Hc; [| apply IH].
  destruct (decide (app_id_of u ∈ known)) as [Hk|Hk]; [apply IH |].
  destruct (decide (u ∈ acc)) as [Hin|Hin].
  - destruct (MAX_APPS <=? length acc) eqn:Hmax; [| apply IH].
    exists []. rewrite app_nil_r.
    split_and!; [done | done | lia | done].
  - destruct (MAX_APPS <=? length (acc ++ [u])) eqn:Hmax.
    + exists [u]. split_and!; [done | by apply Forall_singleton | |].
      * rewrite length_app. simpl. lia.
      * intros Hnd. apply NoDup_app. split_and!; [done | | apply NoDup_singleton].
        intros x Hx ->%list_elem_of_singleton. done.
    + destruct (IH (acc ++ [u])) as (new & Heq & Hall & Hlen & Hnd).
      exists (u :: new). rewrite Heq, <- app_assoc. split_and!.
      * done.
      * by apply Forall_cons.
      * intros _. rewrite <- app_assoc in Hlen. apply Hlen.
        apply Nat.leb_gt in Hmax. lia.
      * intros Hacc. rewrite <- app_assoc in Hnd. apply Hnd.
        apply NoDup_app. split_and!; [done | | apply NoDup_singleton].
        intros x Hx ->%list_elem_of_singleton. done.
Qed.

Lemma parse_new_apps_spec section known :
  Forall (link_ok known) (parse_new_apps section known)
  ∧ length (parse_new_apps section known) ≤ MAX_APPS
  ∧ NoDup (parse_new_apps section known).
Proof.
  destruct section as [links|]; simpl.
  2:{ split_and!; [done | lia | apply NoDup_nil_2]. }
  destruct (parse_links_spec links known []) as (new & -> & ? & Hlen & Hnd).
  split_and!; [done | | apply Hnd, NoDup_nil_2].
  apply Hlen. unfold MAX_APPS. simpl. lia.
Qed.

(** A property of every URL the loop adds holds of its result. *)
Lemma parse_links_Forall (P : string → Prop) links known acc :
  (∀ href, href ∈ links → PyStr.nonempty href = true → P (absolute href)) →
  Forall P acc → Forall P (parse_links links known acc).
Proof.
  revert acc. induction links as [|href rest IH]; intros acc HP Hacc;
    [done |].
  assert (∀ acc', Forall P acc' → Forall P (parse_links rest known acc'))
    as Hrest.
  { intros acc' Hacc'. apply IH; [| done].
    intros h Hh. apply HP. by right. }
  simpl. destruct (PyStr.nonempty href) eqn:Hne; [| by apply Hrest].
  fold (absolute href).
  destruct (PyStr.contains (absolute href) "/app/"); [| by apply Hrest].
  destruct (decide (_ ∈ known)); [by apply Hrest |].
  assert (Forall P (acc ++ [absolute href])) as Hnext.
  { apply Forall_app. split; [done |]. apply Forall_singleton.
    apply HP; [by left | done]. }
  destruct (decide (absolute href ∈ acc));
    (destruct (_ <=? _); [done | by apply Hrest]).
Qed.

Lemma retry_details_step w u k log :
  retry_details w u (S k) log =
  match app_page w u (length log) with
  | Raises => retry_details w u k (log ++ [u])
  | Page name description image developer =>
      if PyStr.nonempty name
      then (Some (Details
                    (if PyStr.contains u "/app/" then app_id_of u
                     else EmptyString)
                    name description image developer), log ++ [u])
      else retry_details w u k (log ++ [u])
  end.
Proof.
  simpl. unfold bind, fetch_app_details, ret.
  destruct (app_page _ _ _) as [|n d i dev]; [done |].
  destruct (PyStr.nonempty n) eqn:E; [| done]. simpl. by rewrite E.
Qed.

Lemma retry_details_some w u k log d :
  (retry_details w u k log).1 = Some d →
  details_ok u d ∧ ∃ n, ¬ app_fails (app_page w u n).
Proof.
  revert log. induction k as [|k IH]; intros log; [done |].
  rewrite retry_details_step.
  destruct (app_page w u (length log)) as [|n de i dev] eqn:Hp; [apply IH |].
  destruct (PyStr.nonempty n) eqn:E; [| apply IH].
  intros [= <-]. split; [done |]. exists (length log). rewrite Hp. simpl.
  by rewrite E.
Qed.

Lemma retry_details_log w u k log :
  ∃ n, n ≤ k ∧ (retry_details w u k log).2 = log ++ replicate n u.
Proof.
  revert log. induction k as [|k IH]; intros log.
  { exists 0. by rewrite app_nil_r. }
  rewrite retry_details_step.
  destruct (IH (log ++ [u])) as (n & Hn & Hlog).
  assert (∃ m, m ≤ S k ∧
            (retry_details w u k (log ++ [u])).2 = log ++ replicate m u)
    as Hk.
  { exists (S n). split; [lia |]. by rewrite Hlog, <- app_assoc. }
  destruct (app_page _ _ _) as [|na d i dev]; [done |].
  destruct (PyStr.nonempty na); [| done].
  exists 1. split; [lia | done].
Qed.

(** The outcome of a retry, attempt by attempt. *)
Lemma homey_retry_result (w : Homey.world) u k log :
  match Homey.retry_details w u k log with
  | (Some d, log') =>
      ∃ j name description image developer,
        j < k
        ∧ log' = log ++ replicate (S j) u
        ∧ Homey.app_page w u (length log + j)
          = Homey.Page name description image developer
        ∧ PyStr.nonempty name = true
        ∧ d = Homey.Details
                (if PyStr.contains u "/app/" then Homey.app_id_of u
                 else EmptyString)
                name description image developer
        ∧ ∀ j', j' < j → app_fails (Homey.app_page w u (length log + j'))
  | (None, log') =>
      log' = log ++ replicate k u
      ∧ ∀ j, j < k → app_fails (Homey.app_page w u (length log + j))
  end.
Proof.
  revert log. induction k as [|k IH]; intros log.
  { simpl. split; [by rewrite app_nil_r | lia]. }
  rewrite retry_details_step.
  assert (app_fails (Homey.app_page w u (length log)) →
          match Homey.retry_details w u k (log ++ [u]) with
          | (Some d, log') =>
              ∃ j name description image developer,
                j < S k
                ∧ log' = log ++ replicate (S j) u
                ∧ Homey.app_page w u (length log + j)
                  = Homey.Page name description image developer
                ∧ PyStr.nonempty name = true
                ∧ d = Homey.Details
                        (if PyStr.contains u "/app/" then Homey.app_id_of u
                         else EmptyString)
                        name description image developer
                ∧ ∀ j', j' < j →
                        app_fails (Homey.app_page w u (length log + j'))
          | (None, log') =>
              log' = log ++ replicate (S k) u
              ∧ ∀ j, j < S k →
                     app_fails (Homey.app_page w u (length log + j))
          end) as Hnext.
  { intros Hf. specialize (IH (log ++ [u])).
    rewrite length_app in IH. simpl in IH.
    destruct (Homey.retry_details w u k (log ++ [u])) as [[d|] log'].
    - destruct IH as (j & n & de & im & dev & Hj & -> & Hpage & Hn & Hd
                      & Hbefore).
      exists (S j), n, de, im, dev.
      split_and!; [lia | by rewrite <- app_assoc | | done | done |].
      + by replace (length log + S j) with (length log + 1 + j) by lia.
      + intros [|j'] Hj'; [by rewrite Nat.add_0_r |].
        replace (length log + S j') with (length log + 1 + j') by lia.
        apply Hbefore. lia.
    - destruct IH as [-> Hall]. split; [by rewrite <- app_assoc |].
      intros [|j] Hj; [by rewrite Nat.add_0_r |].
      replace (length log + S j) with (length log + 1 + j) by lia.
      apply Hall. lia. }
  destruct (Homey.app_page w u (length log)) as [|n de im dev] eqn:Hp;
    [by apply Hnext |].
  destruct (PyStr.nonempty n) eqn:Hn; [| by apply Hnext].
  exists 0, n, de, im, dev. rewrite Nat.add_0_r.
  split_and!; [lia | done | done | done | done |].
  intros j' Hj'. lia.
Qed.

Lemma fetch_new_apps_step w u rest new_apps log :
  fetch_new_apps w (u :: rest) new_apps log =
  match fetch_app_details_with_retry w u log with
  | (Some d, log') =>
      fetch_new_apps w rest
        (new_apps ++ [App (d_id d) (d_name d) (d_description d) u
                          (d_image d) (d_developer d) (now w) Aware]) log'
  | (None, log') => fetch_new_apps w rest new_apps log'
  end.
Proof.
  simpl. unfold bind.
  by destruct (fetch_app_details_with_retry _ _ _) as [[d|] log'].
Qed.

Lemma fetch_new_apps_spec w urls new_apps log :
  ∃ new,
    (fetch_new_apps w urls new_apps log).1 = new_apps ++ new
    ∧ Forall (app_ok w) new
    ∧ (url <$> new) `sublist_of` urls.
Proof.
  revert new_apps log.
  induction urls as [|u rest IH]; intros new_apps log.
  { exists []. by rewrite app_nil_r. }
  rewrite fetch_new_apps_step.
  destruct (fetch_app_details_with_retry w u log) as [[d|] log'] eqn:Hr.
  - destruct (retry_details_some w u MAX_RETRIES log d) as [[Hn Hid] Hs].
    { unfold fetch_app_details_with_retry in Hr. by rewrite Hr. }
    set (a := App _ _ _ _ _ _ _ _).
    destruct (IH (new_apps ++ [a]) log') as (new & Heq & Hall & Hsub).
    exists (a :: new). rewrite Heq, <- app_assoc. split_and!; [done | |].
    + apply Forall_cons. split; [| done]. by split_and!.
    + simpl. by apply sublist_skip.
  - destruct (IH new_apps log') as (new & Heq & Hall & Hsub).
    exists new. split_and!; [done | done | by apply sublist_cons].
Qed.

(** The apps a run adds are read back with a time zone. *)
Lemma fetch_new_apps_aware w urls new_apps log :
  Forall (λ a, iso a = Aware) new_apps →
  Forall (λ a, iso a = Aware) (fetch_new_apps w urls new_apps log).1.
Proof.
  revert new_apps log.
  induction urls as [|u rest IH]; intros new_apps log Hall; [done |].
  rewrite fetch_new_apps_step.
  destruct (fetch_app_details_with_retry w u log) as [[d|] log'];
    apply IH; [| done].
  apply Forall_app. split; [done |]. by apply Forall_singleton.
Qed.

(** The requests of the loop: every URL of the list is asked for, and
    nothing else. *)
Lemma fetch_new_apps_log w urls new_apps log :
  ∃ extra,
    (fetch_new_apps w urls new_apps log).2 = log ++ extra
    ∧ ∀ v, v ∈ extra ↔ v ∈ urls.
Proof.
  revert new_apps log.
  induction urls as [|u rest IH]; intros new_apps log.
  { exists []. rewrite app_nil_r. split; [done |]. set_solver. }
  rewrite fetch_new_apps_step. unfold fetch_app_details_with_retry.
  pose proof (homey_retry_result w u MAX_RETRIES log) as Hr.
  assert (∀ new_apps' n,
            ∃ extra,
              (fetch_new_apps w rest new_apps' (log ++ replicate (S n) u)).2
              = log ++ extra
              ∧ ∀ v, v ∈ extra ↔ v ∈ u :: rest) as Hnext.
  { intros new_apps' n.
    destruct (IH new_apps' (log ++ replicate (S n) u))
      as (extra & Heq & Hin).
    exists (replicate (S n) u ++ extra).
    split; [by rewrite Heq, <- app_assoc |].
    intros v. rewrite elem_of_app, Hin, elem_of_cons, elem_of_replicate.
    split; [intros [[-> _]|?]; [by left | by right] |].
    intros [->|?]; [left; split; [done | lia] | by right]. }
  destruct (retry_details w u MAX_RETRIES log) as [[d|] log'].
  - destruct Hr as (j & _ & _ & _ & _ & _ & -> & _). apply Hnext.
  - destruct Hr as [-> _]. apply (Hnext new_apps 2).
Qed.

(** No app is added for a URL when every request the loop makes for it
    fails. *)
Lemma fetch_new_apps_fails w urls new_apps log u :
  (∀ n, length log ≤ n →
        (fetch_new_apps w urls new_apps log).2 !! n = Some u →
        app_fails (app_page w u n)) →
  Forall (λ a, url a ≠ u) new_apps →
  Forall (λ a, url a ≠ u) (fetch_new_apps w urls new_apps log).1.
Proof.
  revert new_apps log.
  induction urls as [|v rest IH]; intros new_apps log Hf Hnew; [done |].
  rewrite fetch_new_apps_step in Hf |- *.
  unfold fetch_app_details_with_retry in *.
  pose proof (homey_retry_result w v MAX_RETRIES log) as Hr.
  destruct (retry_details w v MAX_RETRIES log) as [[d|] log'].
  - destruct Hr as (k & na & de & im & dev & _ & -> & Hpage & Hna & _).
    apply IH.
    + intros n Hn. apply Hf. rewrite length_app, length_replicate in Hn. lia.
    + apply Forall_app. split; [done |]. apply Forall_singleton. simpl.
      intros ->.
      destruct (fetch_new_apps_log w rest
                  (new_apps ++ [App (d_id d) (d_name d) (d_description d) u
                                    (d_image d) (d_developer d) (now w)
                                    Aware])
                  (log ++ replicate (S k) u)) as (extra & Hlog & _).
      specialize (Hf (length log + k)). rewrite Hlog, Hpage in Hf.
      assert (PyStr.nonempty na = false) as Hna'; [| congruence].
      apply Hf; [lia |].
      rewrite <- app_assoc, lookup_app_r by lia.
      replace (length log + k - length log) with k by lia.
      rewrite lookup_app_l by (rewrite length_replicate; lia).
      apply lookup_replicate_2. lia.
  - destruct Hr as [-> _]. apply IH; [| done].
    intros n Hn. apply Hf. rewrite length_app in Hn. lia.
Qed.

(** [generate_rss_feed] raises exactly when a rendered row has a time
    stamp without a zone; otherwise it gives the entries of the rows with
    a name, in their order. *)
Lemma homey_feed_spec (l : list app) :
  match generate_rss_feed l with
  | Some f =>
      f = homey_entry <$> filter (λ a, PyStr.nonempty (name a) = true) l
      ∧ Forall (λ a, ¬ homey_raises a) l
  | None => Exists homey_raises l
  end.
Proof.
  induction l as [|p l IH]; [done |].
  rewrite filter_cons. cbn [generate_rss_feed].
  destruct (PyStr.nonempty (name p)) eqn:Hd.
  2:{ rewrite decide_False by done.
      destruct (generate_rss_feed l) as [f|].
      - destruct IH as [-> Hall]. split; [done |].
        apply Forall_cons. split; [| done]. intros [? _]. congruence.
      - by apply Exists_cons_tl. }
  rewrite decide_True by done.
  assert (parse_timestamp p ≠ Some false →
          match cons (homey_entry p) <$> generate_rss_feed l with
          | Some f =>
              f = homey_entry
                  <$> p :: filter (λ a, PyStr.nonempty (name a) = true) l
              ∧ Forall (λ a, ¬ homey_raises a) (p :: l)
          | None => Exists homey_raises (p :: l)
          end) as Hnext.
  { intros Ht. destruct (generate_rss_feed l) as [f|]; simpl.
    - destruct IH as [-> Hall]. split; [done |].
      apply Forall_cons. split; [| done]. by intros [_ ?].
    - by apply Exists_cons_tl. }
  unfold homey_entry at 1 in Hnext. cbv zeta.
  destruct (parse_timestamp p) as [[|]|] eqn:Ht.
  - by apply Hnext.
  - by apply Exists_cons_hd.
  - by apply Hnext.
Qed.

End homey_facts.

(** ** Runs *)

Section runs.

Lemma panther_main_unfold file items net :
  Panther.main file (Panther.World (Some items) net) =
  let '(merged, updated_articles, log) := panther_enriched file items net in
  Panther.Run
    (if updated_articles is [] then Panther.Exit 1 else Panther.Exit 0)
    (Some merged)
    (Some (Panther.generate_rss_feed merged))
    (if updated_articles is [] then None
     else Some (Panther.summary_line
                <$> omap (λ i, merged !! i) updated_articles))
    log.
Proof. reflexivity. Qed.

Lemma panther_saved file items net :
  Panther.saved (Panther.main file (Panther.World (Some items) net))
  = Some (panther_enriched file items net).1.1.
Proof.
  rewrite panther_main_unfold.
  by destruct (panther_enriched file items net) as [[merged upd] log].
Qed.

Lemma panther_merged_eq file items :
  panther_merged file items
  = panther_new file items ++ Panther.load_existing_articles file.
Proof. reflexivity. Qed.

Lemma panther_enriched_spec file items net :
  ∃ ok,
    (panther_enriched file items net).1.2 = ok
    ∧ NoDup ok
    ∧ key <$> (panther_enriched file items net).1.1
      = key <$> panther_trimmed file items
    ∧ (∀ i, i ∈ ok ↔
         ∃ a a', panther_trimmed file items !! i = Some a
                 ∧ Panther.pending a = true
                 ∧ (panther_enriched file items net).1.1 !! i = Some a'
                 ∧ Panther.pending a' = false)
    ∧ (∀ i, i ∉ ok →
         (panther_enriched file items net).1.1 !! i
         = panther_trimmed file items !! i).
Proof.
  unfold panther_enriched.
  set (w := Panther.World _ _). set (trimmed := panther_trimmed file items).
  destruct (enrich_spec w (Panther.articles_needing_content trimmed)
              trimmed [] [])
    as (ok & Hupd & Hsub & Hkey & Hok & Hnot).
  { apply NoDup_articles_needing_content. }
  { intros i. by rewrite elem_of_articles_needing_content. }
  exists ok. split_and!; [done | | done | | done].
  - eapply sublist_NoDup; [apply NoDup_articles_needing_content | done].
  - intros i. split.
    + intros Hi. destruct (Hok i Hi) as (a & a' & Ha & Ha' & Hp).
      exists a, a'. split_and!; [done | | done | done].
      assert (i ∈ Panther.articles_needing_content trimmed) as Hin
        by by eapply elem_of_sublist.
      apply elem_of_articles_needing_content in Hin as (b & Hb & Hpb).
      congruence.
    + intros (a & a' & Ha & Hp & Ha' & Hp').
      destruct (decide (i ∈ ok)) as [|Hn]; [done |].
      rewrite (Hnot i Hn) in Ha'. congruence.
Qed.

Lemma length_panther_new file items :
  length (panther_new file items) ≤ Panther.MAX_ARTICLES.
Proof.
  unfold panther_new. rewrite length_fmap.
  apply parse_news_items_spec.
Qed.

(** The dicts of a list, kept up to the cap, and what the cap drops. *)
Lemma trim_new_first {A} (new old : list A) n :
  length new ≤ n →
  take (length new) (take n (new ++ old)) = new
  ∧ drop n (new ++ old) = drop (n - length new) old.
Proof.
  intros Hn. split.
  - rewrite take_take, Nat.min_l by done. apply take_app_length.
  - by apply drop_app_ge.
Qed.

Lemma homey_main_unfold file section net now :
  let new_apps := homey_new_apps file section net now in
  let merged :=
    take Homey.MAX_APPS (new_apps ++ Homey.load_existing_apps file) in
  let log :=
    (Homey.fetch_new_apps (Homey.World (Some section) net now)
       (Homey.parse_new_apps section
          (Homey.existing_ids_of (Homey.load_existing_apps file)))
       [] []).2 in
  Homey.main file (Homey.World (Some section) net now) =
  match Homey.generate_rss_feed merged with
  | None => Homey.Run Homey.Propagated (Some merged) None None log
  | Some entries =>
      Homey.Run
        (if new_apps is [] then Homey.Exit 1 else Homey.Exit 0)
        (Some merged)
        (Some entries)
        (if new_apps is [] then None else Some (Homey.name <$> new_apps))
        log
  end.
Proof.
  unfold homey_new_apps, Homey.main. simpl.
  by destruct (Homey.fetch_new_apps _ _ _ _) as [new_apps log].
Qed.

(** The rows are saved whether or not the feed can be written. *)
Lemma homey_saved file section net now :
  Homey.saved (Homey.main file (Homey.World (Some section) net now))
  = Some (take Homey.MAX_APPS
            (homey_new_apps file section net now
             ++ Homey.load_existing_apps file)).
Proof.
  rewrite homey_main_unfold. cbv zeta.
  by destruct (Homey.generate_rss_feed _).
Qed.

Lemma homey_requests_eq file section net now :
  Homey.requests (Homey.main file (Homey.World (Some section) net now))
  = (Homey.fetch_new_apps (Homey.World (Some section) net now)
       (Homey.parse_new_apps section
          (Homey.existing_ids_of (Homey.load_existing_apps file)))
       [] []).2.
Proof.
  rewrite homey_main_unfold. cbv zeta.
  by destruct (Homey.generate_rss_feed _).
Qed.

Lemma homey_feed file section net now f :
  Homey.feed (Homey.main file (Homey.World (Some section) net now)) = Some f →
  Homey.generate_rss_feed
    (take Homey.MAX_APPS
       (homey_new_apps file section net now ++ Homey.load_existing_apps file))
  = Some f.
Proof.
  rewrite homey_main_unfold. cbv zeta.
  by destruct (Homey.generate_rss_feed _).
Qed.

Lemma homey_requests file section net now v :
  v ∈ Homey.requests (Homey.main file (Homey.World (Some section) net now))
  ↔ v ∈ Homey.parse_new_apps section
          (Homey.existing_ids_of (Homey.load_existing_apps file)).
Proof.
  rewrite homey_main_unfold. cbv zeta.
  destruct (fetch_new_apps_log (Homey.World (Some section) net now)
              (Homey.parse_new_apps section
                 (Homey.existing_ids_of (Homey.load_existing_apps file)))
              [] []) as (extra & Heq & Hin).
  rewrite <- Hin. simpl in Heq.
  by destruct (Homey.generate_rss_feed _); simpl; rewrite Heq.
Qed.

Lemma homey_new_aware file section net now :
  Forall (λ a, Homey.iso a = Homey.Aware)
    (homey_new_apps file section net now).
Proof. by apply fetch_new_apps_aware. Qed.

Lemma komood_main_unfold file w :
  ∃ n, 1 ≤ n ≤ 50 ∧
  Komood.main file w =
  match Komood.generate_rss_feed
          (komood_new file w ++ Komood.load_existing_products file) with
  | None =>
      Komood.Run Komood.Propagated
        (Some (komood_new file w ++ Komood.load_existing_products file))
        None None (seq 1 n)
  | Some entries =>
      Komood.Run
        (if komood_new file w is [] then Komood.Exit 1 else Komood.Exit 0)
        (Some (komood_new file w ++ Komood.load_existing_products file))
        (Some entries)
        (if komood_new file w is [] then None
         else Some (Komood.title <$> komood_new file w))
        (seq 1 n)
  end.
Proof.
  destruct (komood_main_total file w) as (all & n & Hn & Hall & _ & Hmain).
  exists n. split; [done |]. simpl in Hmain. rewrite Hmain.
  unfold komood_new, komood_listed. specialize (Hall 0).
  rewrite Nat.add_0_r in Hall. by rewrite Hall.
Qed.

(** The rows are saved whether or not the feed can be written. *)
Lemma komood_saved file w :
  Komood.saved (Komood.main file w)
  = Some (komood_new file w ++ Komood.load_existing_products file).
Proof.
  destruct (komood_main_unfold file w) as (n & _ & ->).
  by destruct (Komood.generate_rss_feed _).
Qed.

Lemma homey_new_apps_spec file section net now :
  Forall (app_ok (Homey.World (Some section) net now))
    (homey_new_apps file section net now)
  ∧ (Homey.url <$> homey_new_apps file section net now)
      `sublist_of` Homey.parse_new_apps section
                     (Homey.existing_ids_of (Homey.load_existing_apps file))
  ∧ length (homey_new_apps file section net now) ≤ Homey.MAX_APPS.
Proof.
  unfold homey_new_apps.
  destruct (fetch_new_apps_spec (Homey.World (Some section) net now)
              (Homey.parse_new_apps section
                 (Homey.existing_ids_of (Homey.load_existing_apps file)))
              [] []) as (new & -> & Hall & Hsub).
  simpl. split_and!; [done | done |].
  apply sublist_length in Hsub. rewrite length_fmap in Hsub.
  etrans; [apply Hsub |]. apply parse_new_apps_spec.
Qed.

End runs.

(** ** Deduplication *)

Section dedup.

Lemma url_to_dict t : Panther.url (Panther.to_dict t) = cand_url t.
Proof. by destruct t as [[[? ?] ?] ?]. Qed.

Lemma url_of_key (l l' : list Panther.article) :
  key <$> l = key <$> l' → Panther.url <$> l = Panther.url <$> l'.
Proof.
  intros H. change Panther.url with (snd ∘ key).
  by rewrite !list_fmap_compose, H.
Qed.

(** Appending candidates that are new, and distinct among themselves, to
    a list without duplicates gives a list without duplicates. *)
Lemma NoDup_new_old (new old : list string) (known : gset string) :
  known = list_to_set old →
  Forall (λ x, x ∉ known) new → NoDup new → NoDup old → NoDup (new ++ old).
Proof.
  intros -> Hnew Hn Ho. apply NoDup_app. split_and!; [done | | done].
  intros x Hx. rewrite Forall_forall in Hnew.
  specialize (Hnew x Hx). by rewrite elem_of_list_to_set in Hnew.
Qed.

(** C1, as amended. No scraper emits a candidate whose id (for the
    Panther, whose URL) is in the known set. None of them removes a
    repetition of an id within the listing, so the saved list is free of
    duplicate ids when the prior list is and the ids the listing yields
    are pairwise distinct: for the Panther the URLs of the news items, for
    the Komood store the ids of the products listed, for the Homey store
    the ids of the URLs found in the section. *)
Theorem C1_known_ids_never_emitted :
  (∀ file items,
     Forall (λ a, Panther.url a
                  ∉ Panther.existing_urls_of
                      (Panther.load_existing_articles file))
       (panther_new file items)
     ∧ ∀ net,
         NoDup (Panther.url <$> Panther.load_existing_articles file) →
         NoDup (omap entry_url items) →
         ∃ l, Panther.saved
                (Panther.main file (Panther.World (Some items) net)) = Some l
              ∧ NoDup (Panther.url <$> l))
  ∧ (∀ file w,
       Forall (λ p, Komood.id p
                    ∉ Komood.existing_ids_of
                        (Komood.load_existing_products file))
         (komood_new file w)
       ∧ (NoDup (Komood.id <$> Komood.load_existing_products file) →
          NoDup (Komood.l_id <$> komood_listed (Komood.pages w)) →
          ∃ l, Komood.saved (Komood.main file w) = Some l
               ∧ NoDup (Komood.id <$> l)))
  ∧ (∀ file section net now,
       Forall (λ a, Homey.id a
                    ∉ Homey.existing_ids_of (Homey.load_existing_apps file))
         (homey_new_apps file section net now)
       ∧ (NoDup (Homey.id <$> Homey.load_existing_apps file) →
          NoDup (Homey.app_id_of
                 <$> Homey.parse_new_apps section
                       (Homey.existing_ids_of
                          (Homey.load_existing_apps file))) →
          ∃ l, Homey.saved
                 (Homey.main file (Homey.World (Some section) net now))
               = Some l
               ∧ NoDup (Homey.id <$> l))).
Proof.
  split_and!.
  - intros file items.
    destruct (parse_news_items_spec items
                (Panther.existing_urls_of
                   (Panther.load_existing_articles file)))
      as (Hok & Hsub & _).
    assert (Forall (λ a, Panther.url a
                         ∉ Panther.existing_urls_of
                             (Panther.load_existing_articles file))
              (panther_new file items)) as Hnew.
    { unfold panther_new. apply Forall_fmap.
      eapply Forall_impl; [apply Hok |].
      intros t (Hk & _ & _). simpl. by rewrite url_to_dict. }
    split; [done |]. intros net Hold Hitems.
    eexists. split; [apply panther_saved |].
    destruct (panther_enriched_spec file items net) as (ok & _ & _ & Hkey & _).
    rewrite (url_of_key _ _ Hkey). unfold panther_trimmed, Panther.trim.
    rewrite fmap_take. eapply sublist_NoDup; [| apply sublist_take].
    rewrite panther_merged_eq, fmap_app.
    eapply NoDup_new_old; [done | by apply Forall_fmap | | done].
    unfold panther_new. rewrite <- list_fmap_compose.
    eapply sublist_NoDup; [apply Hitems |].
    erewrite list_fmap_ext; [apply Hsub |].
    intros ? t _. simpl. apply url_to_dict.
  - intros file w.
    destruct (new_products_of_spec (Komood.now w)
                (Komood.existing_ids_of (Komood.load_existing_products file))
                (komood_listed (Komood.pages w))) as (Hnew & Hsub & _).
    fold (komood_new file w) in Hnew, Hsub.
    assert (Forall (λ p, Komood.id p
                         ∉ Komood.existing_ids_of
                             (Komood.load_existing_products file))
              (komood_new file w)) as Hnew'.
    { eapply Forall_impl; [apply Hnew |]. by intros p [? _]. }
    split; [done |]. intros Hold Hall.
    eexists. split; [apply komood_saved |]. rewrite fmap_app.
    eapply NoDup_new_old; [done | by apply Forall_fmap | | done].
    by eapply sublist_NoDup.
  - intros file section net now.
    destruct (homey_new_apps_spec file section net now) as (Hok & Hsub & _).
    destruct (parse_new_apps_spec section
                (Homey.existing_ids_of (Homey.load_existing_apps file)))
      as (Hlinks & _ & _).
    rewrite Forall_forall in Hok. rewrite Forall_forall in Hlinks.
    assert (∀ a, a ∈ homey_new_apps file section net now →
                 Homey.id a = Homey.app_id_of (Homey.url a)
                 ∧ Homey.id a
                   ∉ Homey.existing_ids_of (Homey.load_existing_apps file))
      as Hid.
    { intros a Ha. destruct (Hok a Ha) as (_ & Hid & _).
      assert (Homey.url a ∈ Homey.parse_new_apps section
                (Homey.existing_ids_of (Homey.load_existing_apps file)))
        as Hu.
      { eapply elem_of_sublist; [| apply Hsub].
        by apply list_elem_of_fmap_2. }
      destruct (Hlinks _ Hu) as (_ & Hc & Hk). rewrite Hc in Hid.
      by rewrite Hid. }
    assert (Forall (λ a, Homey.id a
                         ∉ Homey.existing_ids_of
                             (Homey.load_existing_apps file))
              (homey_new_apps file section net now)) as Hnew.
    { apply Forall_forall. intros a Ha. by apply Hid. }
    split; [done |]. intros Hold Hall.
    eexists. split; [apply homey_saved |].
    rewrite fmap_take. eapply sublist_NoDup; [| apply sublist_take].
    rewrite fmap_app.
    eapply NoDup_new_old; [done | by apply Forall_fmap | | done].
    eapply sublist_NoDup; [apply Hall |].
    erewrite (list_fmap_ext Homey.id (Homey.app_id_of ∘ Homey.url)).
    + rewrite list_fmap_compose. apply (fmap_sublist Homey.app_id_of), Hsub.
    + intros i a Ha. simpl. apply Hid. by eapply list_elem_of_lookup_2.
Qed.

Lemma C1_known_ids_never_emitted_witness :
  (∃ l, Panther.saved
          (Panther.main (Some [stored_article])
             (Panther.World (Some listing_above_stored)
                (λ _ _, Panther.Raises)))
        = Some l
        ∧ NoDup (Panther.url <$> l))
  ∧ (∃ l, Komood.saved (Komood.main (Some [stored_product])
                          catalog_with_stored) = Some l
          ∧ NoDup (Komood.id <$> l))
  ∧ (∃ l, Homey.saved
            (Homey.main (Some [stored_app])
               (Homey.World (Some section_with_stored) every_page_reads
                  "2024-11-05T14:30:00+01:00"))
          = Some l
          ∧ NoDup (Homey.id <$> l)).
Proof.
  split_and!.
  - apply (proj1 C1_known_ids_never_emitted (Some [stored_article])
             listing_above_stored);
      apply (bool_decide_unpack _); by vm_compute.
  - apply (proj1 (proj2 C1_known_ids_never_emitted) (Some [stored_product])
             catalog_with_stored);
      apply (bool_decide_unpack _); by vm_compute.
  - apply (proj2 (proj2 C1_known_ids_never_emitted) (Some [stored_app])
             section_with_stored every_page_reads
             "2024-11-05T14:30:00+01:00");
      apply (bool_decide_unpack _); by vm_compute.
Defined.

(** C1, as stated, fails: a listing that shows the same article twice,
    with nothing stored before, leaves two rows with one URL. *)
Lemma C1_counterexample :
  let row := Panther.Article "2024-11-05" "14:30" "Y"
               "https://www.aev-panther.de/panther/news/y.html"
               EmptyString EmptyString in
  Panther.saved
    (Panther.main None
       (Panther.World (Some [listed_once; listed_once])
          (λ _ _, Panther.Raises)))
  = Some [row; row]
  ∧ ¬ NoDup (Panther.url <$> [row; row]).
Proof.
  split; [by vm_compute |].
  intros [Hin _]%NoDup_cons. apply Hin. simpl. left.
Qed.

(** The other two scrapers repeat an id in the same way: Komood when two
    handles of a page clean to one id, Homey when two links of the section
    differ as strings and name one app. *)
Example komood_repeated_id :
  Komood.id
  <$> komood_new None
        (Komood.World
           (λ page, match page with
                    | 1 => Komood.PageData
                             [Komood.ProductJson "panther-t-shirt"
                                "Panther - T-Shirt" "d" EmptyString;
                              Komood.ProductJson "ausverkauft-panther-t-shirt"
                                "AUSVERKAUFT: Panther - T-Shirt" "d"
                                EmptyString]
                    | _ => Komood.PageData []
                    end)
           EmptyString)
  = ["panther"; "panther"].
Proof. by vm_compute. Qed.

Example homey_repeated_id :
  Homey.id
  <$> homey_new_apps None
        (Some ["/en-us/app/com.example/"; "/de-de/app/com.example"])
        (λ _ _, Homey.Page "Example" "An app" EmptyString "Dev") EmptyString
  = ["com.example"; "com.example"].
Proof. by vm_compute. Qed.

End dedup.

(** ** Stop-at-known discovery and required fields *)

Section stop_at_known.



(** What the adapters do emit carries a title and a URL. *)
Lemma emitted_fields_present :
  (∀ items known,
     Forall (λ t, PyStr.nonempty (cand_title t) = true
                  ∧ PyStr.nonempty (cand_url t) = true)
       (Panther.parse_news_items items known))
  ∧ (∀ p l, Komood.parse_product p = Some l →
            PyStr.nonempty (Komood.l_id l) = true
            ∧ PyStr.nonempty (Komood.l_title l) = true
            ∧ PyStr.nonempty (Komood.l_url l) = true).
Proof.
  split.
  - intros items known.
    destruct (parse_news_items_spec items known) as (Hok & _ & _).
    eapply Forall_impl; [apply Hok |]. by intros t (_ & ? & ?).
  - intros p l. apply parse_product_ok.
Qed.

(** The URL derived from an [href] is never empty, so the test of the URL
    in [if title and url] never fails. *)
Lemma derived_url_nonempty href : PyStr.nonempty (derived_url href) = true.
Proof.
  unfold derived_url. destruct (PyStr.startswith href "http") eqn:E.
  - by destruct href.
  - by vm_compute.
Qed.

(** C6 at the failing input: a news item whose link has an empty [href]
    misses its URL, and is emitted all the same, with the base URL of the
    site in the place of its own. *)
Theorem C6_empty_href_is_emitted :
  Panther.parse_news_items
    [Panther.NewsItem (Some EmptyString) ["05.11.2024 | 14:30 Uhr"; "Title"]
       (Some ("05.11.2024", "14:30"))]
    ∅
  = [("2024-11-05", "14:30", "Title", Panther.BASE_URL)].
Proof. by vm_compute. Qed.

End stop_at_known.

(** ** Merge and trim *)

Section merge_trim.

Lemma new_then_old_app {A} (new old : list A) :
  new_then_old new old (new ++ old).
Proof.
  split_and!; [done | |].
  - intros i x Hi. by apply lookup_app_l_Some.
  - intros j. rewrite lookup_app_r by lia. f_equal. lia.
Qed.

(** C2, as amended. The merged list is the new items followed by the
    stored list, each in its order. For the Panther the new items are the
    candidates of the listing, in its order, and the rows saved are the
    first [MAX_ARTICLES] of the merged list with the fields of the
    discovery unchanged: the new ones stand first, the stored ones after
    them. For the Komood store the new items are the products listed and
    not known, and the merged list is saved as it is. For the Homey store
    the new items are not the candidates of the section but those of them
    whose details the run fetched; the rest has no row. *)
Theorem C2_new_items_first :
  (∀ file items net,
     new_then_old (panther_new file items)
       (Panther.load_existing_articles file) (panther_merged file items)
     ∧ (Panther.url <$> panther_new file items)
         `sublist_of` omap entry_url items
     ∧ ∃ l,
         Panther.saved (Panther.main file (Panther.World (Some items) net))
         = Some l
         ∧ key <$> l
           = key <$> take Panther.MAX_ARTICLES
                       (panther_new file items
                        ++ Panther.load_existing_articles file)
         ∧ (∀ i a, panther_new file items !! i = Some a →
                   ∃ a', l !! i = Some a' ∧ key a' = key a)
         ∧ (∀ j a', l !! (length (panther_new file items) + j) = Some a' →
                    ∃ a, Panther.load_existing_articles file !! j = Some a
                         ∧ key a' = key a))
  ∧ (∀ file w,
       Komood.saved (Komood.main file w)
       = Some (komood_new file w ++ Komood.load_existing_products file)
       ∧ new_then_old (komood_new file w)
           (Komood.load_existing_products file)
           (komood_new file w ++ Komood.load_existing_products file)
       ∧ (Komood.id <$> komood_new file w)
           `sublist_of` (Komood.l_id <$> komood_listed (Komood.pages w)))
  ∧ (∀ file section net now,
       Homey.saved (Homey.main file (Homey.World (Some section) net now))
       = Some (take Homey.MAX_APPS
                 (homey_new_apps file section net now
                  ++ Homey.load_existing_apps file))
       ∧ new_then_old (homey_new_apps file section net now)
           (Homey.load_existing_apps file)
           (homey_new_apps file section net now
            ++ Homey.load_existing_apps file)
       ∧ (Homey.url <$> homey_new_apps file section net now)
           `sublist_of` Homey.parse_new_apps section
                          (Homey.existing_ids_of
                             (Homey.load_existing_apps file))
       ∧ Forall (app_ok (Homey.World (Some section) net now))
           (homey_new_apps file section net now)).
Proof.
  split_and!.
  - intros file items net. split_and!.
    + rewrite panther_merged_eq. apply new_then_old_app.
    + unfold panther_new. rewrite <- list_fmap_compose.
      erewrite list_fmap_ext; [apply parse_news_items_spec |].
      intros ? t _. simpl. apply url_to_dict.
    + eexists. split; [apply panther_saved |].
      destruct (panther_enriched_spec file items net)
        as (ok & _ & _ & Hkey & _).
      pose proof (length_panther_new file items) as Hlen.
      set (l := (panther_enriched file items net).1.1) in *.
      assert (key <$> l
              = key <$> take Panther.MAX_ARTICLES
                          (panther_new file items
                           ++ Panther.load_existing_articles file)) as Hk
        by done.
      split_and!; [done | |].
      * intros i a Ha.
        assert ((key <$> l) !! i = Some (key a)) as Hi.
        { rewrite Hk. apply list_lookup_fmap_Some_2, lookup_take_Some.
          split; [by apply lookup_app_l_Some |].
          apply lookup_lt_Some in Ha. lia. }
        apply list_lookup_fmap_Some_1 in Hi as (a' & Heq & Ha').
        by exists a'.
      * intros j a' Ha'.
        assert ((key <$> l) !! (length (panther_new file items) + j)
                = Some (key a')) as Hj
          by by apply list_lookup_fmap_Some_2.
        rewrite Hk in Hj.
        apply list_lookup_fmap_Some_1 in Hj as (a & Heq & Ha).
        apply lookup_take_Some in Ha as [Ha _].
        rewrite lookup_app_r in Ha by lia.
        replace (length (panther_new file items) + j
                 - length (panther_new file items)) with j in Ha by lia.
        by exists a.
  - intros file w. split_and!.
    + apply komood_saved.
    + apply new_then_old_app.
    + apply new_products_of_spec.
  - intros file section net now. split_and!.
    + apply homey_saved.
    + apply new_then_old_app.
    + apply homey_new_apps_spec.
    + apply homey_new_apps_spec.
Qed.

(** C2, as stated, fails for the Homey store: the section below yields
    two candidates, the details of the first cannot be fetched, and the
    merged list that is saved holds the second alone. *)
Lemma C2_counterexample :
  let u1 := "https://homey.app/en-us/app/com.new/" in
  let u2 := "https://homey.app/en-us/app/com.other/" in
  let now := "2024-11-05T14:30:00+01:00" in
  let w := Homey.World
             (Some (Some ["/en-us/app/com.new/"; "/en-us/app/com.other/"]))
             (λ u _, if String.eqb u u1 then Homey.Raises
                     else Homey.Page "Other" "An app" EmptyString "Dev")
             now in
  Homey.parse_new_apps
    (Some ["/en-us/app/com.new/"; "/en-us/app/com.other/"]) ∅
  = [u1; u2]
  ∧ Homey.saved (Homey.main None w)
    = Some [Homey.App "com.other" "Other" "An app" u2 EmptyString "Dev" now
              Homey.Aware].
Proof. split; by vm_compute. Qed.

(** C3. A capped source saves at most its maximum: the saved list is the
    first [MAX] elements of the concatenation (for the Panther, with the
    descriptions and images the run fetched filled in), the new items are
    all among them, at the head, and what is dropped is a tail of the
    stored list. The discovery never yields more than [MAX] items. *)
Theorem C3_cap_keeps_new_items :
  (∀ file items net,
     ∃ l,
       Panther.saved (Panther.main file (Panther.World (Some items) net))
       = Some l
       ∧ length l ≤ Panther.MAX_ARTICLES
       ∧ key <$> l
         = key <$> take Panther.MAX_ARTICLES
                     (panther_new file items
                      ++ Panther.load_existing_articles file)
       ∧ length (panther_new file items) ≤ Panther.MAX_ARTICLES
       ∧ key <$> take (length (panther_new file items)) l
         = key <$> panther_new file items
       ∧ drop Panther.MAX_ARTICLES
           (panther_new file items ++ Panther.load_existing_articles file)
         = drop (Panther.MAX_ARTICLES - length (panther_new file items))
             (Panther.load_existing_articles file))
  ∧ (∀ file section net now,
       ∃ l,
         Homey.saved (Homey.main file (Homey.World (Some section) net now))
         = Some l
         ∧ length l ≤ Homey.MAX_APPS
         ∧ l = take Homey.MAX_APPS
                 (homey_new_apps file section net now
                  ++ Homey.load_existing_apps file)
         ∧ length (homey_new_apps file section net now) ≤ Homey.MAX_APPS
         ∧ take (length (homey_new_apps file section net now)) l
           = homey_new_apps file section net now
         ∧ drop Homey.MAX_APPS
             (homey_new_apps file section net now
              ++ Homey.load_existing_apps file)
           = drop (Homey.MAX_APPS
                   - length (homey_new_apps file section net now))
               (Homey.load_existing_apps file)).
Proof.
  split.
  - intros file items net. eexists. split; [apply panther_saved |].
    destruct (panther_enriched_spec file items net) as (ok & _ & _ & Hkey & _).
    pose proof (length_panther_new file items) as Hlen.
    destruct (trim_new_first (panther_new file items)
                (Panther.load_existing_articles file)
                Panther.MAX_ARTICLES Hlen) as [Htake Hdrop].
    assert (key <$> (panther_enriched file items net).1.1
            = key <$> take Panther.MAX_ARTICLES
                        (panther_new file items
                         ++ Panther.load_existing_articles file)) as Hk
      by done.
    split_and!; [| done | done | | done].
    + apply (f_equal length) in Hk. rewrite !length_fmap in Hk.
      rewrite Hk, length_take. lia.
    + rewrite fmap_take, Hk, <- fmap_take. by rewrite Htake.
  - intros file section net now. eexists.
    split; [apply homey_saved |].
    destruct (homey_new_apps_spec file section net now) as (_ & _ & Hlen).
    destruct (trim_new_first (homey_new_apps file section net now)
                (Homey.load_existing_apps file) Homey.MAX_APPS Hlen)
      as [Htake Hdrop].
    split_and!; [| done..]. rewrite length_take. lia.
Qed.

End merge_trim.

(** ** Pagination *)

Section pagination.

(** C10. [fetch_all_products] returns for every sequence of page
    responses: 50 rounds of its loop are always enough (and a larger
    allowance gives the same result). It requests the pages 1, ..., n one
    after the other, with n at most 50; every page before the last has
    products, and the last page raises, is empty, or is page 50. *)
Theorem C10_pagination_terminates (pages : nat → Komood.page_response) :
  ∃ all n,
    1 ≤ n ≤ 50
    ∧ (∀ extra,
         Komood.fetch_all_products_fuel (50 + extra) pages
         = Some (all, seq 1 n))
    ∧ (∀ j, 1 ≤ j < n → has_products (pages j))
    ∧ (pages n = Komood.PageRaises
       ∨ pages n = Komood.PageData []
       ∨ n = 50).
Proof.
  destruct (fetch_pages_total 50 pages 1 [] [])
    as (all & n & Hn & Hbefore & Hlast & Heq); [lia.. |].
  exists all, n. split_and!; [lia | lia | done | |].
  - intros j Hj. replace j with (1 + (j - 1)) by lia. apply Hbefore. lia.
  - replace (1 + (n - 1)) with n in Hlast by lia.
    destruct Hlast as [?|[?|?]]; [by left | by right; left |].
    right; right. lia.
Qed.

(** The bound is reached: a source that never runs out of products is
    asked for exactly 50 pages. *)
Lemma pagination_bound_reached p :
  ∃ all,
    Komood.fetch_all_products_fuel 50 (λ _, Komood.PageData [p])
    = Some (all, seq 1 50).
Proof. eexists. by vm_compute. Qed.

End pagination.

(** ** Failure of the listing fetch *)

Section listing_failure.

(** C7, as amended. When the fetch of the listing raises, the Panther and
    the Homey run end with the exception and write nothing. The Komood
    run catches what a page fetch raises. When page [k] is the first to
    raise, after pages with products, the run has requested the pages 1,
    ..., [k] and saves the new ones among the products of the pages
    before [k], followed by the stored rows; so when the first page
    raises it saves the stored rows as they are. After the save it writes
    the feed and exits with 0 when there is a new product and with 1 when
    there is none; the one exception it can end with is that of
    [fe.pubDate], raised for a stored row with a description whose time
    stamp has no time zone. *)
Theorem C7_listing_fetch_failure :
  (∀ file net,
     Panther.main file (Panther.World None net)
     = Panther.Run Panther.Propagated None None None [])
  ∧ (∀ file net now,
       Homey.main file (Homey.World None net now)
       = Homey.Run Homey.Propagated None None None [])
  ∧ (∀ file w k,
       1 ≤ k ≤ 50 →
       (∀ j, 1 ≤ j < k → has_products (Komood.pages w j)) →
       Komood.pages w k = Komood.PageRaises →
       let existing := Komood.load_existing_products file in
       let listed :=
         omap Komood.parse_product
           (mjoin ((products_of ∘ Komood.pages w) <$> seq 1 (k - 1))) in
       let new_products :=
         Komood.new_products_of (Komood.now w)
           (Komood.existing_ids_of existing) listed in
       Komood.requests (Komood.main file w) = seq 1 k
       ∧ Komood.saved (Komood.main file w) = Some (new_products ++ existing)
       ∧ (k = 1 → new_products = [])
       ∧ (Komood.generate_rss_feed (new_products ++ existing) = None
          ↔ Exists komood_raises existing)
       ∧ match Komood.generate_rss_feed (new_products ++ existing) with
         | Some entries =>
             Komood.feed (Komood.main file w) = Some entries
             ∧ Komood.ended (Komood.main file w)
               = (if new_products is [] then Komood.Exit 1
                  else Komood.Exit 0)
         | None =>
             Komood.feed (Komood.main file w) = None
             ∧ Komood.ended (Komood.main file w) = Komood.Propagated
         end).
Proof.
  split_and!; [done | done |].
  intros file w k Hk Hbefore Hraise existing listed new_products.
  pose proof (fetch_pages_raises (Komood.pages w) k Hk Hbefore Hraise)
    as Hfetch.
  fold listed in Hfetch.
  assert (Komood.main file w
          = match Komood.generate_rss_feed (new_products ++ existing) with
            | None =>
                Komood.Run Komood.Propagated (Some (new_products ++ existing))
                  None None (seq 1 k)
            | Some entries =>
                Komood.Run
                  (if new_products is [] then Komood.Exit 1
                   else Komood.Exit 0)
                  (Some (new_products ++ existing))
                  (Some entries)
                  (if new_products is [] then None
                   else Some (Komood.title <$> new_products))
                  (seq 1 k)
            end) as ->.
  { unfold Komood.main. by rewrite Hfetch. }
  split_and!.
  - by destruct (Komood.generate_rss_feed _).
  - by destruct (Komood.generate_rss_feed _).
  - by intros ->.
  - apply komood_feed_raises, komood_new_aware.
  - by destruct (Komood.generate_rss_feed _).
Qed.

Lemma C7_listing_fetch_failure_witness :
  let file := Some [stored_product] in
  let w := second_page_raises in
  let existing := Komood.load_existing_products file in
  let listed :=
    omap Komood.parse_product
      (mjoin ((products_of ∘ Komood.pages w) <$> seq 1 (2 - 1))) in
  let new_products :=
    Komood.new_products_of (Komood.now w)
      (Komood.existing_ids_of existing) listed in
  Komood.requests (Komood.main file w) = seq 1 2
  ∧ Komood.saved (Komood.main file w) = Some (new_products ++ existing)
  ∧ (2 = 1 → new_products = [])
  ∧ (Komood.generate_rss_feed (new_products ++ existing) = None
     ↔ Exists komood_raises existing)
  ∧ match Komood.generate_rss_feed (new_products ++ existing) with
    | Some entries =>
        Komood.feed (Komood.main file w) = Some entries
        ∧ Komood.ended (Komood.main file w)
          = (if new_products is [] then Komood.Exit 1 else Komood.Exit 0)
    | None =>
        Komood.feed (Komood.main file w) = None
        ∧ Komood.ended (Komood.main file w) = Komood.Propagated
    end.
Proof.
  apply (proj2 (proj2 C7_listing_fetch_failure) (Some [stored_product])
           second_page_raises 2).
  - lia.
  - intros j Hj. assert (j = 1) as -> by lia. exact I.
  - reflexivity.
Defined.

(** C7, as stated, fails for the paginated catalog: when the fetch of
    page 2 raises, the run goes on, saves the product of page 1 and exits
    with 0. *)
Lemma C7_counterexample :
  Komood.pages second_page_raises 2 = Komood.PageRaises
  ∧ Komood.main None second_page_raises
    = Komood.Run (Komood.Exit 0)
        (Some [Komood.Product "panther" "Panther" "€25,00"
                 "https://www.komood.store/products/ausverkauft-panther-t-shirt"
                 EmptyString "2024-11-05T14:30:00+01:00" Komood.Aware])
        (Some [Komood.FeedEntry
                 "https://www.komood.store/products/ausverkauft-panther-t-shirt"
                 "Panther"
                 "https://www.komood.store/products/ausverkauft-panther-t-shirt"
                 (Some "2024-11-05T14:30:00+01:00")
                 "€25,00" None])
        (Some ["Panther"]) [1; 2].
Proof. split; [done | by vm_compute]. Qed.

(** The exception of the feed: a stored row with a description and a time
    stamp without a zone. The rows are saved, no feed is written and the
    run ends with the exception, whatever the catalog holds. *)
Example komood_zoneless_row :
  let row := Komood.Product "wolf" "Wolf" "€20,00"
               "https://www.komood.store/products/wolf-t-shirt" EmptyString
               "2024-11-01T10:00:00" Komood.Naive in
  Komood.main (Some [row])
    (Komood.World (λ _, Komood.PageData []) "2024-11-05T14:30:00+01:00")
  = Komood.Run Komood.Propagated (Some [row]) None None [1].
Proof. by vm_compute. Qed.

End listing_failure.

(** ** Exit codes and the commit summary *)

Section exit_codes.

(** C8, as amended. A run that gets its listing and writes its feed exits
    with 0 or with 1 and prints the summary block exactly when it exits
    with 0. The Panther exits with 0 exactly when the run fetched the
    content of at least one article, newly discovered or stored without a
    description before, with one line for each such article; the Komood
    run exactly when it discovered a new product, with one line for each;
    the Homey run exactly when it fetched the details of at least one
    newly discovered app, with one line for each. A Panther run that gets
    its listing always writes its feed; a Komood or Homey run whose feed
    generation raises ends with the exception and prints no summary. *)
Theorem C8_exit_code_and_summary :
  (∀ file items net,
     ∃ l ok,
       Panther.saved (Panther.main file (Panther.World (Some items) net))
       = Some l
       ∧ NoDup ok
       ∧ (∀ i, i ∈ ok ↔
            ∃ a a', panther_trimmed file items !! i = Some a
                    ∧ Panther.pending a = true
                    ∧ l !! i = Some a'
                    ∧ Panther.pending a' = false)
       ∧ Panther.ended (Panther.main file (Panther.World (Some items) net))
         = (if ok is [] then Panther.Exit 1 else Panther.Exit 0)
       ∧ Panther.summary
           (Panther.main file (Panther.World (Some items) net))
         = (if ok is [] then None
            else Some (Panther.summary_line <$> omap (λ i, l !! i) ok)))
  ∧ (∀ file w,
       match Komood.generate_rss_feed
               (komood_new file w ++ Komood.load_existing_products file) with
       | Some entries =>
           Komood.feed (Komood.main file w) = Some entries
           ∧ Komood.ended (Komood.main file w)
             = (if komood_new file w is [] then Komood.Exit 1
                else Komood.Exit 0)
           ∧ Komood.summary (Komood.main file w)
             = (if komood_new file w is [] then None
                else Some (Komood.title <$> komood_new file w))
       | None =>
           Komood.feed (Komood.main file w) = None
           ∧ Komood.ended (Komood.main file w) = Komood.Propagated
           ∧ Komood.summary (Komood.main file w) = None
       end)
  ∧ (∀ file section net now,
       match Homey.generate_rss_feed
               (take Homey.MAX_APPS
                  (homey_new_apps file section net now
                   ++ Homey.load_existing_apps file)) with
       | Some entries =>
           Homey.feed (Homey.main file (Homey.World (Some section) net now))
           = Some entries
           ∧ Homey.ended
               (Homey.main file (Homey.World (Some section) net now))
             = (if homey_new_apps file section net now is []
                then Homey.Exit 1 else Homey.Exit 0)
           ∧ Homey.summary
               (Homey.main file (Homey.World (Some section) net now))
             = (if homey_new_apps file section net now is [] then None
                else Some (Homey.name
                           <$> homey_new_apps file section net now))
       | None =>
           Homey.feed (Homey.main file (Homey.World (Some section) net now))
           = None
           ∧ Homey.ended
               (Homey.main file (Homey.World (Some section) net now))
             = Homey.Propagated
           ∧ Homey.summary
               (Homey.main file (Homey.World (Some section) net now))
             = None
       end
       ∧ (Homey.url <$> homey_new_apps file section net now)
           `sublist_of` Homey.parse_new_apps section
                          (Homey.existing_ids_of
                             (Homey.load_existing_apps file))).
Proof.
  split_and!.
  - intros file items net.
    destruct (panther_enriched_spec file items net)
      as (ok & Hupd & Hnd & _ & Hok & _).
    exists (panther_enriched file items net).1.1, ok.
    rewrite panther_main_unfold.
    destruct (panther_enriched file items net) as [[l upd] log].
    simpl in *. subst upd. by split_and!.
  - intros file w. destruct (komood_main_unfold file w) as (n & _ & ->).
    by destruct (Komood.generate_rss_feed _).
  - intros file section net now. rewrite homey_main_unfold. cbv zeta.
    split; [| apply homey_new_apps_spec].
    by destruct (Homey.generate_rss_feed _).
Qed.

(** C8, as stated, fails: the Panther run below discovers a new article
    and stores it, fails to fetch its content, and exits with 1. *)
Lemma C8_counterexample :
  let row := Panther.Article "2024-11-05" "14:30" "Y"
               "https://www.aev-panther.de/panther/news/y.html"
               EmptyString EmptyString in
  panther_new None [listed_once] = [row]
  ∧ Panther.main None
      (Panther.World (Some [listed_once]) (λ _ _, Panther.Raises))
    = Panther.Run (Panther.Exit 1) (Some [row]) (Some []) None
        [Panther.url row; Panther.url row; Panther.url row].
Proof. split; by vm_compute. Qed.

End exit_codes.

(** ** Records whose enrichment fails *)

Section failed_enrichment.

Lemma panther_feed_has_descriptions l :
  Forall (λ e, PyStr.nonempty (Panther.fe_description e) = true)
    (Panther.generate_rss_feed l).
Proof.
  unfold Panther.generate_rss_feed. apply Forall_fmap, Forall_forall.
  intros a [Hp _]%list_elem_of_filter. simpl.
  unfold Panther.pending in Hp. by destruct (PyStr.nonempty _).
Qed.

Lemma panther_requests file items net :
  Panther.requests (Panther.main file (Panther.World (Some items) net))
  = (panther_enriched file items net).2.
Proof.
  rewrite panther_main_unfold.
  by destruct (panther_enriched file items net) as [[merged upd] log].
Qed.

Lemma panther_feed file items net :
  Panther.feed (Panther.main file (Panther.World (Some items) net))
  = Some (Panther.generate_rss_feed (panther_enriched file items net).1.1).
Proof.
  rewrite panther_main_unfold.
  by destruct (panther_enriched file items net) as [[merged upd] log].
Qed.

(** C4, as amended. In a Panther run, a record without a description for
    whose URL every request of the run fails is written to the store as
    it is, has no entry in the feed (every entry has a description), and
    in the next run, unless the trim evicts it, its URL is requested
    again. In a Homey run the details are fetched before the merge: when
    every request of the run for a URL fails, no new app has that URL, so
    the store holds a record with it only if it held that record before;
    every entry of the feed is the entry of a row of the store; and a
    later run on that store requests the URL exactly when its own
    discovery yields it, which takes a link to it in the section of that
    run. (The Komood run has no enrichment step.) *)
Theorem C4_failed_enrichment_stays_pending :
  (∀ file items net i a,
     panther_trimmed file items !! i = Some a →
     Panther.pending a = true →
     (∀ n, Panther.requests
             (Panther.main file (Panther.World (Some items) net)) !! n
           = Some (Panther.url a) →
           fails (net (Panther.url a) n)) →
     ∃ l,
       Panther.saved (Panther.main file (Panther.World (Some items) net))
       = Some l
       ∧ l !! i = Some a
       ∧ Panther.url a
         ∈ Panther.requests
             (Panther.main file (Panther.World (Some items) net))
       ∧ Panther.feed (Panther.main file (Panther.World (Some items) net))
         = Some (Panther.generate_rss_feed l)
       ∧ Forall (λ e, PyStr.nonempty (Panther.fe_description e) = true)
           (Panther.generate_rss_feed l)
       ∧ ∀ items' net' j,
           panther_trimmed (Some l) items' !! j = Some a →
           Panther.url a
           ∈ Panther.requests
               (Panther.main (Some l) (Panther.World (Some items') net')))
  ∧ (∀ file section net now u,
       (∀ n, Homey.requests
               (Homey.main file (Homey.World (Some section) net now)) !! n
             = Some u →
             app_fails (net u n)) →
       Forall (λ a, Homey.url a ≠ u) (homey_new_apps file section net now)
       ∧ ∃ l,
           Homey.saved
             (Homey.main file (Homey.World (Some section) net now)) = Some l
           ∧ (∀ a, a ∈ l → Homey.url a = u →
                   a ∈ Homey.load_existing_apps file)
           ∧ (∀ f e,
                Homey.feed
                  (Homey.main file (Homey.World (Some section) net now))
                = Some f →
                e ∈ f →
                ∃ a, a ∈ l ∧ PyStr.nonempty (Homey.name a) = true
                     ∧ e = homey_entry a)
           ∧ ∀ section' net' now',
               (u ∈ Homey.requests
                      (Homey.main (Some l)
                         (Homey.World (Some section') net' now'))
                ↔ u ∈ Homey.parse_new_apps section'
                        (Homey.existing_ids_of
                           (Homey.load_existing_apps (Some l))))
               ∧ (u ∈ Homey.requests
                        (Homey.main (Some l)
                           (Homey.World (Some section') net' now')) →
                  ∃ links href, section' = Some links ∧ href ∈ links
                                ∧ u = absolute href)).
Proof.
  split.
  - intros file items net i a Hi Hp Hf.
    eexists. split; [apply panther_saved |]. split_and!.
    + apply enrich_unchanged; [done |]. intros n _.
      rewrite panther_requests in Hf. apply Hf.
    + rewrite panther_requests. apply (enrich_requests _ _ _ _ _ i).
      * apply elem_of_articles_needing_content. by exists a.
      * by rewrite list_lookup_fmap, Hi.
    + apply panther_feed.
    + apply panther_feed_has_descriptions.
    + intros items' net' j Hj. rewrite panther_requests.
      apply (enrich_requests _ _ _ _ _ j).
      * apply elem_of_articles_needing_content. by exists a.
      * by rewrite list_lookup_fmap, Hj.
  - intros file section net now u Hf.
    assert (Forall (λ a, Homey.url a ≠ u)
              (homey_new_apps file section net now)) as Hnew.
    { apply fetch_new_apps_fails; [| done]. intros n _.
      rewrite homey_requests_eq in Hf. apply Hf. }
    split; [done |]. eexists. split; [apply homey_saved |]. split_and!.
    + intros a Ha Hu. apply elem_of_take in Ha as (k & Hk & _).
      apply list_elem_of_lookup_2 in Hk.
      apply elem_of_app in Hk as [Hk|Hk]; [| done].
      rewrite Forall_forall in Hnew. by destruct (Hnew a Hk).
    + intros f e Hfeed He. apply homey_feed in Hfeed.
      pose proof (homey_feed_spec
                    (take Homey.MAX_APPS
                       (homey_new_apps file section net now
                        ++ Homey.load_existing_apps file))) as Hspec.
      rewrite Hfeed in Hspec. destruct Hspec as [-> _].
      apply list_elem_of_fmap in He as (a & -> & Ha).
      apply list_elem_of_filter in Ha as [Hname Ha]. by exists a.
    + intros section' net' now'. split; [apply homey_requests |].
      intros Hin%homey_requests.
      destruct section' as [links|]; [| by apply elem_of_nil in Hin].
      simpl in Hin.
      assert (Forall (λ v, ∃ href, href ∈ links ∧ v = absolute href)
                (Homey.parse_links links
                   (Homey.existing_ids_of
                      (Homey.load_existing_apps
                         (Some (take Homey.MAX_APPS
                                  (homey_new_apps file section net now
                                   ++ Homey.load_existing_apps file)))))
                   [])) as Hall.
      { apply parse_links_Forall; [| done].
        intros href Hhref _. by exists href. }
      rewrite Forall_forall in Hall.
      destruct (Hall u Hin) as (href & Hhref & ->). by exists links, href.
Qed.

Lemma C4_failed_enrichment_stays_pending_witness :
  (let file := Some [stored_article] in
   let items := listing_above_stored in
   let net := three_articles_raise in
   ∃ l,
     Panther.saved (Panther.main file (Panther.World (Some items) net))
     = Some l
     ∧ l !! 0 = Some pending_row
     ∧ Panther.url pending_row
       ∈ Panther.requests
           (Panther.main file (Panther.World (Some items) net))
     ∧ Panther.feed (Panther.main file (Panther.World (Some items) net))
       = Some (Panther.generate_rss_feed l)
     ∧ Forall (λ e, PyStr.nonempty (Panther.fe_description e) = true)
         (Panther.generate_rss_feed l)
     ∧ ∀ items' net' j,
         panther_trimmed (Some l) items' !! j = Some pending_row →
         Panther.url pending_row
         ∈ Panther.requests
             (Panther.main (Some l) (Panther.World (Some items') net')))
  ∧ (let file := Some [stored_app] in
     let section := section_with_stored in
     let net := three_apps_raise in
     let now := "2024-11-05T14:30:00+01:00" in
     let u := "https://homey.app/en-us/app/com.new/" in
     Forall (λ a, Homey.url a ≠ u) (homey_new_apps file section net now)
     ∧ ∃ l,
         Homey.saved
           (Homey.main file (Homey.World (Some section) net now)) = Some l
         ∧ (∀ a, a ∈ l → Homey.url a = u →
                 a ∈ Homey.load_existing_apps file)
         ∧ (∀ f e,
              Homey.feed
                (Homey.main file (Homey.World (Some section) net now))
              = Some f →
              e ∈ f →
              ∃ a, a ∈ l ∧ PyStr.nonempty (Homey.name a) = true
                   ∧ e = homey_entry a)
         ∧ ∀ section' net' now',
             (u ∈ Homey.requests
                    (Homey.main (Some l)
                       (Homey.World (Some section') net' now'))
              ↔ u ∈ Homey.parse_new_apps section'
                      (Homey.existing_ids_of
                         (Homey.load_existing_apps (Some l))))
             ∧ (u ∈ Homey.requests
                      (Homey.main (Some l)
                         (Homey.World (Some section') net' now')) →
                ∃ links href, section' = Some links ∧ href ∈ links
                              ∧ u = absolute href)).
Proof.
  split.
  - apply (proj1 C4_failed_enrichment_stays_pending (Some [stored_article])
             listing_above_stored three_articles_raise 0 pending_row).
    + reflexivity.
    + reflexivity.
    + intros [|[|[|n]]] Hn; [exact I.. |].
      vm_compute in Hn. by destruct n as [|[|n]].
  - apply (proj2 C4_failed_enrichment_stays_pending (Some [stored_app])
             section_with_stored three_apps_raise
             "2024-11-05T14:30:00+01:00"
             "https://homey.app/en-us/app/com.new/").
    intros [|[|[|n]]] Hn; [exact I.. |].
    vm_compute in Hn. by destruct n as [|[|n]].
Defined.

(** With the first three requests raising, the requests that fail are
    those for the first candidate; the second candidate is fetched at
    once. *)
Example three_requests_raise :
  Panther.requests
    (Panther.main (Some [stored_article])
       (Panther.World (Some listing_above_stored) three_articles_raise))
  = ["https://www.aev-panther.de/panther/news/y.html";
     "https://www.aev-panther.de/panther/news/y.html";
     "https://www.aev-panther.de/panther/news/y.html";
     "https://www.aev-panther.de/panther/news/z.html"]
  ∧ Homey.requests
      (Homey.main (Some [stored_app])
         (Homey.World (Some section_with_stored) three_apps_raise
            "2024-11-05T14:30:00+01:00"))
    = ["https://homey.app/en-us/app/com.new/";
       "https://homey.app/en-us/app/com.new/";
       "https://homey.app/en-us/app/com.new/";
       "https://homey.app/en-us/app/com.other/"]
  ∧ Homey.url
    <$> homey_new_apps (Some [stored_app]) section_with_stored
          three_apps_raise "2024-11-05T14:30:00+01:00"
    = ["https://homey.app/en-us/app/com.other/"].
Proof. split_and!; by vm_compute. Qed.

(** C4, as stated, fails for the Homey scraper: the app below is
    discovered, its three attempts raise, and no record of it is
    written. *)
Lemma C4_counterexample :
  let u := "https://homey.app/en-us/app/com.example/" in
  let w := Homey.World (Some (Some ["/en-us/app/com.example/"]))
             (λ _ _, Homey.Raises) "2024-11-05T14:30:00+01:00" in
  Homey.parse_new_apps (Some ["/en-us/app/com.example/"]) ∅ = [u]
  ∧ Homey.main None w
    = Homey.Run (Homey.Exit 1) (Some []) (Some []) None [u; u; u].
Proof. split; by vm_compute. Qed.

End failed_enrichment.

(** ** Splitting *)

Section split_facts.
Implicit Types s p sep pre rest : string.

Lemma str_append_nil_r s : s +:+ EmptyString = s.
Proof.
  induction s as [|c s IH]; [done |]. by rewrite str_append_cons, IH.
Qed.

Lemma string_of_list_ascii_snoc l c s :
  String.string_of_list_ascii (l ++ [c]) +:+ s
  = String.string_of_list_ascii l +:+ String c s.
Proof.
  induction l as [|a l IH]; [done |]. simpl.
  by rewrite !str_append_cons, IH.
Qed.

(** A pattern no longer than [s] is a prefix of [s +:+ p] only through
    [s]. *)
Lemma prefix_app_long sep s p :
  String.length sep ≤ String.length s →
  String.prefix sep (s +:+ p) = String.prefix sep s.
Proof.
  revert s. induction sep as [|a sep IH]; intros s Hlen.
  { by destruct s, p. }
  destruct s as [|c s]; [simpl in Hlen; lia |].
  rewrite str_append_cons. simpl. destruct (ascii_dec a c); [| done].
  apply IH. simpl in Hlen. lia.
Qed.

Lemma prefix_cons_cons a p c s :
  String.prefix (String a p) (String c s)
  = if ascii_dec a c then String.prefix p s else false.
Proof. reflexivity. Qed.

Lemma contains_cons c s sep :
  PyStr.contains (String c s) sep
  = String.prefix sep (String c s) || PyStr.contains s sep.
Proof. reflexivity. Qed.

Lemma contains_prefix s sep :
  String.prefix sep s = true → PyStr.contains s sep = true.
Proof. destruct s; simpl; by intros ->. Qed.

Lemma contains_app pre sep rest :
  PyStr.contains (pre +:+ sep +:+ rest) sep = true.
Proof.
  induction pre as [|c pre IH].
  - change (EmptyString +:+ sep +:+ rest) with (sep +:+ rest).
    apply contains_prefix, prefix_app.
  - rewrite str_append_cons, contains_cons, IH. apply orb_true_r.
Qed.

(** The characters of a matched separator are passed over. *)
Lemma split_go_skip sep x rest cur :
  PyStr.split_go sep (x +:+ rest) (String.length x) cur
  = PyStr.split_go sep rest 0 cur.
Proof.
  induction x as [|c x IH]; [done |]. by rewrite str_append_cons.
Qed.

Lemma split_go_cons sep c s cur :
  PyStr.split_go sep (String c s) 0 cur
  = if String.prefix sep (String c s)
    then String.string_of_list_ascii (rev cur)
         :: PyStr.split_go sep s (String.length sep - 1) []
    else PyStr.split_go sep s 0 (c :: cur).
Proof. reflexivity. Qed.

(** Without an occurrence of the separator there is one part. *)
Lemma split_go_nosep sep s cur :
  PyStr.contains s sep = false →
  PyStr.split_go sep s 0 cur = [String.string_of_list_ascii (rev cur) +:+ s].
Proof.
  revert cur. induction s as [|c s IH]; intros cur H.
  { simpl. by rewrite str_append_nil_r. }
  rewrite contains_cons in H. apply orb_false_elim in H as [Hp Hc].
  rewrite split_go_cons, Hp, (IH _ Hc). simpl rev.
  by rewrite string_of_list_ascii_snoc.
Qed.

(** The first part ends where the separator first occurs: [sep] is
    [sep_init] followed by one more character, and it does not occur in
    [pre +:+ sep_init]. *)
Lemma split_go_first sep_init l pre rest cur :
  let sep := sep_init +:+ String l EmptyString in
  PyStr.contains (pre +:+ sep_init) sep = false →
  PyStr.split_go sep (pre +:+ sep +:+ rest) 0 cur
  = (String.string_of_list_ascii (rev cur) +:+ pre)
    :: PyStr.split_go sep rest 0 [].
Proof.
  intros sep. revert cur. induction pre as [|c pre IH]; intros cur H.
  - change (EmptyString +:+ sep +:+ rest) with (sep +:+ rest).
    rewrite str_append_nil_r.
    assert (∃ a sep', sep = String a sep') as (a & sep' & Hsep).
    { unfold sep. destruct sep_init; by eexists _, _. }
    rewrite Hsep, str_append_cons, split_go_cons.
    rewrite <- str_append_cons, prefix_app. f_equal.
    replace (String.length (String a sep') - 1) with (String.length sep')
      by (simpl; lia).
    apply split_go_skip.
  - rewrite str_append_cons, contains_cons in H.
    apply orb_false_elim in H as [Hp Hc].
    rewrite str_append_cons, split_go_cons.
    assert (String.prefix sep (String c (pre +:+ sep +:+ rest)) = false)
      as ->.
    { rewrite <- Hp. unfold sep.
      rewrite <- (str_append_cons c pre), <- (str_append_cons c pre).
      rewrite (str_append_assoc sep_init), <- (str_append_assoc _ sep_init).
      apply prefix_app_long. rewrite !str_length_app. simpl. lia. }
    rewrite (IH _ Hc). simpl rev. by rewrite string_of_list_ascii_snoc.
Qed.

(** Three parts without the separator, joined by it, split into the
    three. *)
Lemma split_three_parts c a b d :
  let sep := String c EmptyString in
  PyStr.contains a sep = false →
  PyStr.contains b sep = false →
  PyStr.contains d sep = false →
  PyStr.split (a +:+ sep +:+ b +:+ sep +:+ d) sep = [a; b; d].
Proof.
  intros sep Ha Hb Hd. unfold PyStr.split.
  rewrite (split_go_first EmptyString c a); [| by rewrite str_append_nil_r].
  rewrite (split_go_first EmptyString c b); [| by rewrite str_append_nil_r].
  by rewrite split_go_nosep.
Qed.

End split_facts.

(** ** Augsburger Panther: dates *)

Section panther_dates.
Import Panther.
Local Arguments Nat.leb : simpl never.

Lemma german_date_to_iso_parts d m y :
  PyStr.contains d "." = false →
  PyStr.contains m "." = false →
  PyStr.contains y "." = false →
  german_date_to_iso (d +:+ "." +:+ m +:+ "." +:+ y)
  = y +:+ "-" +:+ m +:+ "-" +:+ d.
Proof.
  intros Hd Hm Hy. unfold german_date_to_iso.
  rewrite (split_three_parts "." d m y Hd Hm Hy).
  by destruct d.
Qed.

(** The dates of parsed items: [german_date_to_iso] turns D.M.Y into
    Y-M-D whenever the three parts hold no dot, and gives back unchanged
    every string without a dot (the empty one among them). *)
Theorem german_date_to_iso_spec :
  (∀ d m y,
     PyStr.contains d "." = false →
     PyStr.contains m "." = false →
     PyStr.contains y "." = false →
     german_date_to_iso (d +:+ "." +:+ m +:+ "." +:+ y)
     = y +:+ "-" +:+ m +:+ "-" +:+ d)
  ∧ (∀ s, PyStr.contains s "." = false → german_date_to_iso s = s).
Proof.
  split; [apply german_date_to_iso_parts |].
  intros s Hs. unfold german_date_to_iso, PyStr.split.
  rewrite (split_go_nosep "." s [] Hs). by destruct s.
Qed.

Lemma german_date_to_iso_spec_witness :
  german_date_to_iso ("05" +:+ "." +:+ "11" +:+ "." +:+ "2024")
  = "2024" +:+ "-" +:+ "11" +:+ "-" +:+ "05".
Proof.
  apply (proj1 german_date_to_iso_spec "05" "11" "2024"); reflexivity.
Defined.




End panther_dates.

(** ** Augsburger Panther: walking a listing again *)

Section panther_walk.
Import Panther.
Local Arguments Nat.leb : simpl never.

(** A second walk over a listing, with the URLs the first walk emitted
    now known, emits nothing. When the first walk emitted nothing, the
    second one must know what the first one knew. *)
Lemma parse_news_items_from_again items known known' acc acc' new :
  parse_news_items_from items known acc = acc ++ new →
  Forall (λ t, cand_url t ∈ known') new →
  (new = [] → known ⊆ known') →
  parse_news_items_from items known' acc' = acc'.
Proof.
  revert acc new. induction items as [|item rest IH];
    intros acc new Hfirst Hnew Hknown; [done |].
  simpl in Hfirst |- *. destruct (link item) as [href|]; [| by eapply IH].
  fold (derived_url href) in Hfirst |- *.
  destruct (decide (derived_url href ∈ known')) as [|Hk']; [done |].
  destruct (decide (derived_url href ∈ known)) as [Hk|Hk].
  { destruct Hk'. apply Hknown; [| done].
    apply (app_inv_head acc). by rewrite app_nil_r. }
  destruct (match spans item with
            | _ :: s1 :: _ => (date_groups item, s1)
            | _ => (None, EmptyString)
            end) as [date_match title].
  destruct (match date_match with
            | Some (g1, g2) => (german_date_to_iso g1, g2)
            | None => (EmptyString, EmptyString)
            end) as [date_str time_str].
  destruct (PyStr.nonempty title && PyStr.nonempty (derived_url href));
    [| by eapply IH].
  set (t := (date_str, time_str, title, derived_url href)) in *.
  assert (∃ new', new = t :: new') as (new' & ->).
  { destruct (MAX_ARTICLES <=? length (acc ++ [t])).
    - exists []. by apply (app_inv_head acc).
    - destruct (parse_news_items_from_spec rest known (acc ++ [t]))
        as (new' & Heq & _).
      exists new'. apply (app_inv_head acc).
      by rewrite <- Hfirst, Heq, <- app_assoc. }
  apply Forall_cons in Hnew as [Ht _]. by destruct Hk'.
Qed.

(** A news item without a link, and a news item without a title whose
    URL is not known, leave no trace in the result. *)
Lemma parse_news_items_from_skip above x below known acc :
  link x = None
  ∨ (∃ href, link x = Some href ∧ (derived_url href ∉ known)
             ∧ entry_title x = EmptyString) →
  parse_news_items_from (above ++ x :: below) known acc
  = parse_news_items_from (above ++ below) known acc.
Proof.
  intros Hx. revert acc.
  induction above as [|item rest IH]; intros acc; simpl.
  - destruct Hx as [-> | (href & -> & Hk & Ht)]; [done |].
    fold (derived_url href). rewrite decide_False by done.
    unfold entry_title in Ht.
    destruct (spans x) as [|s0 [|s1 ?]]; simpl in *; subst;
      repeat match goal with
             | |- context [date_groups ?d] =>
                 destruct (date_groups d) as [[? ?]|]
             end; done.
  - destruct (link item) as [h|]; [| apply IH].
    destruct (decide _); [done |].
    destruct (match spans item with
              | _ :: s1 :: _ => (date_groups item, s1)
              | _ => (None, EmptyString)
              end) as [date_match title].
    destruct (match date_match with
              | Some (g1, g2) => (german_date_to_iso g1, g2)
              | None => (EmptyString, EmptyString)
              end) as [date_str time_str].
    destruct (_ && _); [| apply IH].
    destruct (_ <=? _); [done | apply IH].
Qed.

(** Items that give no candidate do not change the discovery: an item
    without an [a] element wherever it stands, and an item with fewer
    than two spans or an empty title whose URL is not known. *)
Theorem parse_news_items_skips above x below known :
  link x = None
  ∨ (∃ href, link x = Some href ∧ (derived_url href ∉ known)
             ∧ entry_title x = EmptyString) →
  parse_news_items (above ++ x :: below) known
  = parse_news_items (above ++ below) known.
Proof. apply parse_news_items_from_skip. Qed.

Lemma parse_news_items_skips_witness :
  parse_news_items
    ([scenario_item "/y" "Y"] ++ NewsItem None [] None
                                 :: [scenario_item "/z" "Z"])
    ∅
  = parse_news_items ([scenario_item "/y" "Y"] ++ [scenario_item "/z" "Z"]) ∅.
Proof. apply parse_news_items_skips. by left. Defined.

End panther_walk.

(** ** Augsburger Panther: a second run *)

Section panther_second_run.

Lemma panther_trimmed_short file items :
  length (Panther.load_existing_articles file) ≤ Panther.MAX_ARTICLES →
  panther_new file items = [] →
  panther_trimmed file items = Panther.load_existing_articles file.
Proof.
  intros Hlen Hnew. unfold panther_trimmed, Panther.trim.
  rewrite panther_merged_eq, Hnew. simpl. by apply take_ge.
Qed.

Lemma panther_new_in_trimmed file items a :
  a ∈ panther_new file items → a ∈ panther_trimmed file items.
Proof.
  intros Ha. unfold panther_trimmed, Panther.trim.
  rewrite panther_merged_eq.
  rewrite take_app_ge by apply length_panther_new.
  apply elem_of_app. by left.
Qed.

(** Idempotence of the discovery. After a run on a store of at most
    [MAX_ARTICLES] rows, a run on the same listing discovers nothing,
    whatever the first run could fetch. *)
Theorem panther_second_run_discovers_nothing file items net :
  length (Panther.load_existing_articles file) ≤ Panther.MAX_ARTICLES →
  ∃ l,
    Panther.saved (Panther.main file (Panther.World (Some items) net))
    = Some l
    ∧ panther_new (Some l) items = [].
Proof.
  intros Hlen. eexists. split; [apply panther_saved |].
  destruct (panther_enriched_spec file items net) as (ok & _ & _ & Hkey & _).
  set (l := (panther_enriched file items net).1.1) in *.
  unfold panther_new at 1. simpl Panther.load_existing_articles.
  set (known := Panther.existing_urls_of
                  (Panther.load_existing_articles file)).
  assert (Panther.existing_urls_of l
          = list_to_set (Panther.url <$> panther_trimmed file items)) as Hl.
  { unfold Panther.existing_urls_of. by rewrite (url_of_key _ _ Hkey). }
  rewrite Hl. unfold Panther.parse_news_items.
  rewrite (parse_news_items_from_again items known _ [] []
             (Panther.parse_news_items items known)); [done | done | |].
  - apply Forall_forall. intros t Ht. apply elem_of_list_to_set.
    rewrite <- url_to_dict. apply list_elem_of_fmap_2.
    apply panther_new_in_trimmed. unfold panther_new.
    by apply list_elem_of_fmap_2.
  - intros Hnew. rewrite panther_trimmed_short; [done | done |].
    unfold panther_new. fold known. by rewrite Hnew.
Qed.

Lemma panther_second_run_discovers_nothing_witness :
  ∃ l,
    Panther.saved
      (Panther.main None
         (Panther.World (Some [listed_once]) (λ _ _, Panther.Raises)))
    = Some l
    ∧ panther_new (Some l) [listed_once] = [].
Proof.
  apply panther_second_run_discovers_nothing. simpl. lia.
Defined.

End panther_second_run.

(** ** Retries *)

Section retries.
Implicit Types (log : list string).

(** The retry of the Panther makes at most [MAX_RETRIES] requests, all
    for its URL. It returns the content of the first attempt that gives a
    description and requests nothing after it; it returns nothing exactly
    when all three attempts raise or give no description. *)
Theorem fetch_article_content_with_retry_spec (w : Panther.world) u log :
  match Panther.fetch_article_content_with_retry w u log with
  | (Some (d, i), log') =>
      ∃ j, j < Panther.MAX_RETRIES
           ∧ log' = log ++ replicate (S j) u
           ∧ Panther.article_page w u (length log + j) = Panther.Content d i
           ∧ PyStr.nonempty d = true
           ∧ ∀ j', j' < j → fails (Panther.article_page w u (length log + j'))
  | (None, log') =>
      log' = log ++ replicate Panther.MAX_RETRIES u
      ∧ ∀ j, j < Panther.MAX_RETRIES →
             fails (Panther.article_page w u (length log + j))
  end.
Proof. apply panther_retry_result. Qed.

(** The retry of the Homey scraper makes at most [MAX_RETRIES] requests,
    all for its URL. It returns the details of the first page that gives
    a name, with the id read off the URL, and requests nothing after it;
    it returns nothing exactly when all three attempts raise or give no
    name. *)
Theorem fetch_app_details_with_retry_spec (w : Homey.world) u log :
  match Homey.fetch_app_details_with_retry w u log with
  | (Some d, log') =>
      ∃ j name description image developer,
        j < Homey.MAX_RETRIES
        ∧ log' = log ++ replicate (S j) u
        ∧ Homey.app_page w u (length log + j)
          = Homey.Page name description image developer
        ∧ PyStr.nonempty name = true
        ∧ d = Homey.Details
                (if PyStr.contains u "/app/" then Homey.app_id_of u
                 else EmptyString)
                name description image developer
        ∧ ∀ j', j' < j → app_fails (Homey.app_page w u (length log + j'))
  | (None, log') =>
      log' = log ++ replicate Homey.MAX_RETRIES u
      ∧ ∀ j, j < Homey.MAX_RETRIES →
             app_fails (Homey.app_page w u (length log + j))
  end.
Proof. apply homey_retry_result. Qed.

End retries.

(** ** Augsburger Panther: what the enrichment touches *)

Section panther_enrichment_extent.

(** Enrichment writes only rows without a description. A row of the
    trimmed list is saved at its place with its date, time, title and URL;
    a row with a description is saved unchanged, and a row without one is
    saved unchanged or with a description. *)
Theorem panther_enrichment_fills_only_pending file items net i a :
  panther_trimmed file items !! i = Some a →
  ∃ l a',
    Panther.saved (Panther.main file (Panther.World (Some items) net))
    = Some l
    ∧ l !! i = Some a'
    ∧ key a' = key a
    ∧ (Panther.pending a = false → a' = a)
    ∧ (a' = a ∨ (Panther.pending a = true ∧ Panther.pending a' = false)).
Proof.
  intros Ha.
  destruct (panther_enriched_spec file items net)
    as (ok & _ & _ & Hkey & Hok & Hnot).
  set (l := (panther_enriched file items net).1.1) in *.
  assert (∃ a', l !! i = Some a' ∧ key a' = key a) as (a' & Ha' & Hk).
  { apply (f_equal (λ x, x !! i)) in Hkey.
    rewrite !list_lookup_fmap, Ha in Hkey.
    destruct (l !! i) as [a'|] eqn:E; [| done]. exists a'. split; [done |].
    simpl in Hkey. by apply (inj Some). }
  exists l, a'. split; [apply panther_saved |].
  split_and!; [done | done | |].
  - intros Hp. destruct (decide (i ∈ ok)) as [Hi|Hi].
    + apply Hok in Hi as (b & _ & Hb & Hpb & _). congruence.
    + rewrite (Hnot i Hi) in Ha'. congruence.
  - destruct (decide (i ∈ ok)) as [Hi|Hi].
    + apply Hok in Hi as (b & b' & Hb & Hpb & Hb' & Hpb').
      right. split; congruence.
    + left. rewrite (Hnot i Hi) in Ha'. congruence.
Qed.

Lemma panther_enrichment_fills_only_pending_witness :
  ∃ l a',
    Panther.saved
      (Panther.main None
         (Panther.World (Some [listed_once])
            (λ _ _, Panther.Content "Teaser" EmptyString)))
    = Some l
    ∧ l !! 0 = Some a'
    ∧ key a' = key pending_row
    ∧ (Panther.pending pending_row = false → a' = pending_row)
    ∧ (a' = pending_row
       ∨ (Panther.pending pending_row = true ∧ Panther.pending a' = false)).
Proof. by apply panther_enrichment_fills_only_pending. Defined.

(** The requests of the enrichment loop: at most [MAX_RETRIES] for each
    object of the work list, each for the URL of one of them. *)
Lemma enrich_log_bound (w : Panther.world) todo heap updated log urls :
  Panther.url <$> heap = urls →
  ∃ extra,
    (Panther.enrich w todo heap updated log).2 = log ++ extra
    ∧ length extra ≤ Panther.MAX_RETRIES * length todo
    ∧ Forall (λ u, ∃ i, i ∈ todo ∧ urls !! i = Some u) extra.
Proof.
  revert heap updated log.
  induction todo as [|i rest IH]; intros heap updated log Hurls.
  { exists []. by rewrite app_nil_r. }
  assert (∀ heap' updated' n a,
            Panther.url <$> heap' = urls → heap !! i = Some a → n ≤ 3 →
            ∃ extra,
              (Panther.enrich w rest heap' updated'
                 (log ++ replicate n (Panther.url a))).2 = log ++ extra
              ∧ length extra ≤ Panther.MAX_RETRIES * length (i :: rest)
              ∧ Forall (λ u, ∃ j, j ∈ i :: rest ∧ urls !! j = Some u) extra)
    as Hnext.
  { intros heap' updated' n a Hurls' Ha Hn.
    destruct (IH heap' updated' (log ++ replicate n (Panther.url a)) Hurls')
      as (extra & Heq & Hlen & Hall).
    exists (replicate n (Panther.url a) ++ extra).
    split_and!; [by rewrite Heq, <- app_assoc | |].
    - rewrite length_app, length_replicate. unfold Panther.MAX_RETRIES in *.
      simpl length. lia.
    - apply Forall_app. split.
      + apply Forall_replicate. exists i. split; [set_solver |].
        by rewrite <- Hurls, list_lookup_fmap, Ha.
      + eapply Forall_impl; [apply Hall |].
        intros u (j & Hj & Hu). exists j. split; [set_solver | done]. }
  rewrite enrich_step. destruct (heap !! i) as [a|] eqn:Ha.
  2:{ destruct (IH heap updated log Hurls) as (extra & Heq & Hlen & Hall).
      exists extra. split_and!; [done | |].
      { unfold Panther.MAX_RETRIES in *. simpl length. lia. }
      eapply Forall_impl; [apply Hall |].
      intros u (j & Hj & Hu). exists j. split; [set_solver | done]. }
  unfold Panther.fetch_article_content_with_retry.
  destruct (retry_article_log w (Panther.url a) Panther.MAX_RETRIES log)
    as (n & Hn & Hlog).
  destruct (Panther.retry_article w (Panther.url a) Panther.MAX_RETRIES log)
    as [[[d im]|] log']; simpl in Hlog; subst log'.
  - apply Hnext; [| done | done].
    rewrite list_fmap_insert. simpl. rewrite Hurls. apply list_insert_id.
    by rewrite <- Hurls, list_lookup_fmap, Ha.
  - by apply Hnext.
Qed.

(** A run requests only the URLs of rows without a description, and at
    most [MAX_RETRIES] times [MAX_ARTICLES] pages. *)
Theorem panther_requests_bounded file items net :
  length (Panther.requests
            (Panther.main file (Panther.World (Some items) net)))
  ≤ Panther.MAX_RETRIES * Panther.MAX_ARTICLES
  ∧ Forall (λ u, ∃ a, a ∈ panther_trimmed file items
                      ∧ Panther.pending a = true ∧ Panther.url a = u)
      (Panther.requests
         (Panther.main file (Panther.World (Some items) net))).
Proof.
  rewrite panther_requests. unfold panther_enriched.
  set (trimmed := panther_trimmed file items).
  destruct (enrich_log_bound (Panther.World (Some items) net)
              (Panther.articles_needing_content trimmed) trimmed [] []
              (Panther.url <$> trimmed) eq_refl)
    as (extra & -> & Hlen & Hall).
  simpl. split.
  - assert (length (Panther.articles_needing_content trimmed)
            ≤ Panther.MAX_ARTICLES) as Hneed.
    { unfold Panther.articles_needing_content.
      etrans; [apply length_filter |]. rewrite length_seq.
      unfold trimmed, panther_trimmed, Panther.trim.
      rewrite length_take. lia. }
    unfold Panther.MAX_RETRIES, Panther.MAX_ARTICLES in *. lia.
  - eapply Forall_impl; [apply Hall |].
    intros u (i & Hi & Hu).
    apply elem_of_articles_needing_content in Hi as (a & Ha & Hp).
    exists a. split_and!; [by eapply list_elem_of_lookup_2 | done |].
    rewrite list_lookup_fmap, Ha in Hu. by injection Hu.
Qed.

End panther_enrichment_extent.

(** ** Komood Store: the catalog and a second run *)

Section komood_catalog.
Local Arguments Nat.ltb : simpl never.

(** The products a run lists are the products of the pages it requested,
    page after page and in the order of each page, less the ones without
    a clean id or title; a page that raises gives none. *)
Theorem fetch_all_products_lists_pages (pages : nat → Komood.page_response) :
  ∃ n, 1 ≤ n ≤ 50
       ∧ Komood.fetch_all_products_fuel Komood.PAGE_LIMIT pages
         = Some (omap Komood.parse_product
                   (mjoin ((products_of ∘ pages) <$> seq 1 n)),
                 seq 1 n).
Proof.
  destruct (fetch_pages_total 50 pages 1 [] [])
    as (all & n & Hn & _ & _ & Heq); [lia.. |].
  specialize (Heq 0). rewrite Nat.add_0_r in Heq.
  destruct (fetch_pages_products _ _ _ _ _ _ _ Heq) as (m & Hm & ->).
  simpl in Hm. apply (f_equal length) in Hm as Hlen.
  rewrite !length_seq in Hlen. subst m.
  exists n. split; [lia |]. done.
Qed.

Lemma filter_all_known (known : gset string) (all : list Komood.listed) :
  Forall (λ p, Komood.l_id p ∈ known) all →
  filter (λ p, Komood.l_id p ∉ known) all = [].
Proof.
  induction 1 as [|p all Hp _ IH]; [done |].
  rewrite filter_cons, decide_False; [done |]. by intros ?.
Qed.

(** Idempotence of the Komood run. A run on the store a run has saved,
    with the catalog unchanged, discovers nothing: it saves the store as
    it is and prints no summary. When the first run has written its feed,
    the second writes the same feed and exits with 1; when the feed of
    the first run raised, so does that of the second. *)
Theorem komood_second_run_changes_nothing file w now' :
  ∃ l n,
    Komood.saved (Komood.main file w) = Some l
    ∧ Komood.main (Some l) (Komood.World (Komood.pages w) now')
      = match Komood.feed (Komood.main file w) with
        | Some entries =>
            Komood.Run (Komood.Exit 1) (Some l) (Some entries) None (seq 1 n)
        | None =>
            Komood.Run Komood.Propagated (Some l) None None (seq 1 n)
        end.
Proof.
  destruct (komood_main_unfold file w) as (n & _ & Hfirst).
  destruct (komood_main_unfold
              (Some (komood_new file w
                     ++ Komood.load_existing_products file))
              (Komood.World (Komood.pages w) now')) as (n' & _ & Hsecond).
  exists (komood_new file w ++ Komood.load_existing_products file), n'.
  split; [apply komood_saved |]. rewrite Hsecond.
  assert (komood_new
            (Some (komood_new file w ++ Komood.load_existing_products file))
            (Komood.World (Komood.pages w) now') = []) as ->.
  2:{ rewrite Hfirst. simpl.
      by destruct (Komood.generate_rss_feed _). }
  unfold komood_new at 1, Komood.new_products_of.
  simpl Komood.load_existing_products. simpl Komood.pages.
  rewrite filter_all_known; [done |].
  apply Forall_forall. intros p Hp.
  unfold Komood.existing_ids_of. apply elem_of_list_to_set.
  rewrite fmap_app. apply elem_of_app.
  destruct (decide (Komood.l_id p
                    ∈ Komood.existing_ids_of
                        (Komood.load_existing_products file))) as [Hk|Hk].
  - right. by apply elem_of_list_to_set in Hk.
  - left. unfold komood_new, Komood.new_products_of.
    rewrite <- list_fmap_compose.
    apply (list_elem_of_fmap_2' _ _ p); [| done].
    by apply list_elem_of_filter.
Qed.

End komood_catalog.

(** ** Komood Store: decorated handles and titles *)

Section komood_decoration.
Import Komood.

Lemma endswith_same_length s a b :
  String.length a = String.length b →
  PyStr.endswith (s +:+ a) b = String.eqb a b.
Proof.
  intros Hlen. unfold PyStr.endswith. rewrite str_length_app, <- Hlen.
  replace (String.length s + String.length a - String.length a)
    with (String.length s) by lia.
  rewrite str_drop_app.
  replace (String.length a <=? String.length s + String.length a)%nat
    with true; [done |].
  symmetry. apply Nat.leb_le. lia.
Qed.

(** [clean_product_id] gives the core of a handle that carries both
    decorations, whatever the core is; it leaves a handle as it is exactly
    when the handle carries neither; and it never makes a handle
    longer. *)
Theorem clean_product_id_core h :
  clean_product_id (sale_prefix +:+ h +:+ format_suffix) = h
  ∧ String.eqb (clean_product_id h) h
    = negb (PyStr.startswith h sale_prefix)
      && negb (PyStr.endswith h format_suffix)
  ∧ String.length (clean_product_id h) ≤ String.length h.
Proof.
  split_and!.
  - by rewrite clean_prefixed, strip_suffix_app.
  - destruct (PyStr.startswith h sale_prefix) eqn:Hp; simpl.
    + destruct (clean_of_prefixed h Hp) as (h' & -> & -> & _).
      apply str_eqb_length. rewrite length_strip_suffix, str_length_app.
      destruct (PyStr.endswith h' format_suffix); simpl; lia.
    + rewrite clean_unprefixed by done. apply strip_suffix_fixed.
  - destruct (PyStr.startswith h sale_prefix) eqn:Hp.
    + destruct (clean_of_prefixed h Hp) as (h' & -> & -> & _).
      rewrite length_strip_suffix, str_length_app.
      destruct (PyStr.endswith h' format_suffix); simpl; lia.
    + rewrite clean_unprefixed, length_strip_suffix by done.
      destruct (PyStr.endswith h format_suffix); simpl; lia.
Qed.

Lemma clean_title_decorated t :
  clean_title ("AUSVERKAUFT: " +:+ t +:+ " - T-Shirt") = t
  ∧ clean_title ("AUSVERKAUFT: " +:+ t +:+ " - T-shirt") = t.
Proof.
  unfold clean_title, PyStr.startswith.
  rewrite !prefix_app, !str_drop_app, endswith_app, drop_last_app.
  split; [done |].
  rewrite (endswith_same_length t " - T-shirt" " - T-Shirt") by done.
  assert (String.eqb " - T-shirt" " - T-Shirt" = false) as -> by done.
  by rewrite endswith_app, drop_last_app.
Qed.

(** A sold-out product is listed under the id and the title of the
    product itself, in either spelling of the title suffix, and keeps the
    raw handle in its URL. *)
Theorem parse_product_sold_out h t d img :
  PyStr.nonempty h = true →
  PyStr.nonempty t = true →
  parse_product
    (ProductJson (sale_prefix +:+ h +:+ format_suffix)
       ("AUSVERKAUFT: " +:+ t +:+ " - T-Shirt") d img)
  = Some (Listed h t d
            (BASE_URL +:+ "/products/"
             +:+ sale_prefix +:+ h +:+ format_suffix) img)
  ∧ parse_product
      (ProductJson (sale_prefix +:+ h +:+ format_suffix)
         ("AUSVERKAUFT: " +:+ t +:+ " - T-shirt") d img)
    = Some (Listed h t d
              (BASE_URL +:+ "/products/"
               +:+ sale_prefix +:+ h +:+ format_suffix) img).
Proof.
  intros Hh Ht. unfold parse_product. simpl pj_handle. simpl pj_title.
  destruct (clean_title_decorated t) as [-> ->].
  rewrite clean_prefixed, strip_suffix_app.
  by rewrite Hh, Ht.
Qed.

Lemma parse_product_sold_out_witness :
  parse_product
    (ProductJson (sale_prefix +:+ "panther" +:+ format_suffix)
       ("AUSVERKAUFT: " +:+ "Panther" +:+ " - T-Shirt") "d" EmptyString)
  = Some (Listed "panther" "Panther" "d"
            (BASE_URL +:+ "/products/"
             +:+ sale_prefix +:+ "panther" +:+ format_suffix) EmptyString)
  ∧ parse_product
      (ProductJson (sale_prefix +:+ "panther" +:+ format_suffix)
         ("AUSVERKAUFT: " +:+ "Panther" +:+ " - T-shirt") "d" EmptyString)
    = Some (Listed "panther" "Panther" "d"
              (BASE_URL +:+ "/products/"
               +:+ sale_prefix +:+ "panther" +:+ format_suffix) EmptyString).
Proof. apply parse_product_sold_out; reflexivity. Defined.

End komood_decoration.

(** ** Homey App Store: links and URLs *)

Section homey_links.
Import Homey.
Local Arguments Nat.leb : simpl never.

Lemma absolute_not_relative href :
  PyStr.startswith (absolute href) "/" = false.
Proof.
  unfold absolute. by destruct (PyStr.startswith href "/") eqn:E.
Qed.

(** The URLs [parse_new_apps] returns are pairwise distinct and at most
    [MAX_APPS]; each is the absolute form of a non-empty link of the
    section, holds "/app/" and does not start with a slash. Without a
    section there are none. *)
Theorem parse_new_apps_links section known :
  NoDup (parse_new_apps section known)
  ∧ length (parse_new_apps section known) ≤ MAX_APPS
  ∧ Forall (λ u, PyStr.startswith u "/" = false
                 ∧ PyStr.contains u "/app/" = true
                 ∧ ∃ links href, section = Some links ∧ href ∈ links
                                 ∧ PyStr.nonempty href = true
                                 ∧ u = absolute href)
      (parse_new_apps section known)
  ∧ parse_new_apps None known = [].
Proof.
  destruct (parse_new_apps_spec section known) as (Hok & Hlen & Hnd).
  split_and!; [done | done | | done].
  assert (Forall (λ u, PyStr.startswith u "/" = false
                       ∧ ∃ links href, section = Some links ∧ href ∈ links
                                       ∧ PyStr.nonempty href = true
                                       ∧ u = absolute href)
            (parse_new_apps section known)) as Hfrom.
  { destruct section as [links|]; [| done]. simpl.
    apply parse_links_Forall; [| done].
    intros href Hin Hne. split; [apply absolute_not_relative |].
    by exists links, href. }
  rewrite Forall_forall in Hok. rewrite Forall_forall in Hfrom.
  apply Forall_forall. intros u Hu.
  destruct (Hok u Hu) as (_ & Hc & _). destruct (Hfrom u Hu) as [Hs Hl].
  done.
Qed.

Lemma rstrip_snoc c s :
  PyStr.rstrip c (s +:+ String c EmptyString) = PyStr.rstrip c s.
Proof.
  induction s as [|a s IH].
  - simpl. change (EmptyString +:+ String c EmptyString)
      with (String c EmptyString).
    simpl. by rewrite Ascii.eqb_refl.
  - rewrite str_append_cons. simpl. by rewrite IH.
Qed.

(** A URL with one "/app/" in it: the id is what follows, less trailing
    slashes, and the locale-agnostic URL is made of that id alone. So
    neither depends on what precedes "/app/" (the locale), nor on a
    slash at the end. *)
Theorem homey_url_id pre rest :
  PyStr.contains (pre +:+ "/app") "/app/" = false →
  PyStr.contains rest "/app/" = false →
  app_id_of (pre +:+ "/app/" +:+ rest) = PyStr.rstrip "/" rest
  ∧ to_locale_agnostic_url (pre +:+ "/app/" +:+ rest)
    = "https://homey.app/a/" +:+ PyStr.rstrip "/" rest
  ∧ PyStr.rstrip "/" (rest +:+ "/") = PyStr.rstrip "/" rest.
Proof.
  intros Hpre Hrest.
  assert (PyStr.split (pre +:+ "/app/" +:+ rest) "/app/" = [pre; rest])
    as Hsplit.
  { unfold PyStr.split.
    pose proof (split_go_first "/app" "/" pre rest [] Hpre) as Hfirst.
    cbv zeta in Hfirst. change ("/app" +:+ "/") with "/app/" in Hfirst.
    by rewrite Hfirst, (split_go_nosep "/app/" rest [] Hrest). }
  split_and!.
  - unfold app_id_of. by rewrite Hsplit.
  - unfold to_locale_agnostic_url.
    by rewrite (contains_app pre "/app/" rest), Hsplit.
  - apply rstrip_snoc.
Qed.

Lemma homey_url_id_witness :
  app_id_of ("https://homey.app/en-us" +:+ "/app/" +:+ "com.example/")
  = PyStr.rstrip "/" "com.example/"
  ∧ to_locale_agnostic_url
      ("https://homey.app/en-us" +:+ "/app/" +:+ "com.example/")
    = "https://homey.app/a/" +:+ PyStr.rstrip "/" "com.example/"
  ∧ PyStr.rstrip "/" ("com.example/" +:+ "/") = PyStr.rstrip "/" "com.example/".
Proof. apply homey_url_id; reflexivity. Defined.

(** Every app a run adds to the store has a name, the id its URL gives
    and the time of the run, and is saved. When the feed is written, each
    of them has its entry in it, under its locale-agnostic URL; the feed
    is not written only when a stored row with a name has a time stamp
    without a zone, and then the run ends with the exception of
    [fe.pubDate]. *)
Theorem homey_new_apps_complete file section net now :
  ∃ l,
    saved (main file (World (Some section) net now)) = Some l
    ∧ Forall (λ a, PyStr.nonempty (name a) = true
                   ∧ id a = app_id_of (url a)
                   ∧ timestamp a = now
                   ∧ a ∈ l)
        (homey_new_apps file section net now)
    ∧ match feed (main file (World (Some section) net now)) with
      | Some f =>
          Forall (λ a, ∃ e, e ∈ f ∧ fe_title e = name a
                            ∧ fe_id e = to_locale_agnostic_url (url a)
                            ∧ fe_pubDate e
                              = (if PyStr.nonempty now then Some now
                                 else None))
            (homey_new_apps file section net now)
      | None =>
          ended (main file (World (Some section) net now)) = Propagated
          ∧ Exists homey_raises (load_existing_apps file)
      end.
Proof.
  eexists. split; [apply homey_saved |].
  destruct (homey_new_apps_spec file section net now) as (Hok & Hsub & Hlen).
  destruct (parse_new_apps_spec section
              (existing_ids_of (load_existing_apps file)))
    as (Hlinks & _ & _).
  pose proof (homey_new_aware file section net now) as Haware.
  rewrite Forall_forall in Hok. rewrite Forall_forall in Hlinks.
  rewrite Forall_forall in Haware.
  assert (∀ a, a ∈ homey_new_apps file section net now →
               a ∈ take MAX_APPS
                     (homey_new_apps file section net now
                      ++ load_existing_apps file)) as Hin.
  { intros a Ha. rewrite take_app_ge by done. apply elem_of_app. by left. }
  split.
  - apply Forall_forall. intros a Ha.
    destruct (Hok a Ha) as (Hname & Hid & Hts & _).
    assert (url a ∈ parse_new_apps section
              (existing_ids_of (load_existing_apps file))) as Hu.
    { eapply elem_of_sublist; [| apply Hsub]. by apply list_elem_of_fmap_2. }
    destruct (Hlinks _ Hu) as (_ & Hc & _). rewrite Hc in Hid.
    split_and!; [done | done | done | by apply Hin].
  - rewrite homey_main_unfold. cbv zeta.
    pose proof (homey_feed_spec
                  (take MAX_APPS
                     (homey_new_apps file section net now
                      ++ load_existing_apps file))) as Hspec.
    destruct (generate_rss_feed _) as [f|]; simpl.
    + destruct Hspec as [-> _]. apply Forall_forall. intros a Ha.
      destruct (Hok a Ha) as (Hname & _ & Hts & _).
      exists (homey_entry a). split_and!; [| done | done |].
      * apply list_elem_of_fmap_2, list_elem_of_filter.
        split; [exact Hname | by apply Hin].
      * simpl. unfold parse_timestamp.
        simpl in Hts. rewrite (Haware a Ha), Hts.
        by destruct (PyStr.nonempty now).
    + split; [done |].
      apply Exists_exists in Hspec as (a & Ha & Hr).
      apply elem_of_take in Ha as (k & Hk & _).
      apply list_elem_of_lookup_2 in Hk.
      apply elem_of_app in Hk as [Hk|Hk].
      * destruct Hr as [_ Ht]. unfold parse_timestamp in Ht.
        rewrite (Haware a Hk) in Ht.
        by destruct (PyStr.nonempty (timestamp a)).
      * apply Exists_exists. by exists a.
Qed.

End homey_links.
